(** * fin-news-ai: the stock news fetcher

    A shallow embedding of [stock_news_fetcher.py] and the properties of
    its seen-set store, ticker list provider and aggregation loop.

    Conventions of the embedding.
    - A Python [str] is a Rocq [string]; its characters stand for the code
      points 0 to 255.
    - A Python [set] of [str] is a [gset string], a [dict] keyed by [str] a
      [gmap string _].
    - [print] appends an [event] to the [stdout] of the [state]; one
      constructor per message of the program.
    - A call that can raise returns a [result]. [try_result] is a [try]
      whose [except] clause names classes: it hands an exception of one
      of them to the handler and lets any other pass. [try_except] is
      [try] with [except Exception], inside the monad [M] of statements.
    - The records of the news provider are typed: ['content'], when it is
      there, is a mapping, and its fields, when they are there, are
      texts. *)

From Stdlib Require Import Ascii String List NArith Lia Bool.
From stdpp Require Import gmap strings list fin_maps.

#[global] Set Warnings "-clear-no-such-hyp".

Open Scope string_scope.
Open Scope list_scope.

(** ** Python strings *)

Module PyStr.

(** [str.isspace] on the code points below 256: TAB to CR, the four
    separators FS GS RS US, space, NEL and the no-break space. *)
Definition isspace (c : ascii) : bool :=
  let n := N_of_ascii c in
  ((9 <=? n) && (n <=? 13) || (28 <=? n) && (n <=? 32)
   || (n =? 133) || (n =? 160))%N.

Fixpoint lstrip (s : string) : string :=
  match s with
  | EmptyString => EmptyString
  | String c r => if isspace c then lstrip r else s
  end.

Fixpoint rstrip (s : string) : string :=
  match s with
  | EmptyString => EmptyString
  | String c r =>
      match rstrip r with
      | EmptyString => if isspace c then EmptyString else String c EmptyString
      | r' => String c r'
      end
  end.

(** [s.strip()] *)
Definition strip (s : string) : string := rstrip (lstrip s).

(** [s.split(sep)] for a one-character separator: the fields between
    the separators, empty fields kept. *)
Fixpoint split (sep : ascii) (s : string) : list string :=
  match s with
  | EmptyString => [EmptyString]
  | String c r =>
      if Ascii.eqb c sep then EmptyString :: split sep r
      else match split sep r with
           | f :: fs => String c f :: fs
           | [] => [String c EmptyString]
           end
  end.

(** [sep.join(fields)] *)
Fixpoint join (sep : ascii) (fields : list string) : string :=
  match fields with
  | [] => EmptyString
  | [f] => f
  | f :: fs => f +:+ String sep (join sep fs)
  end.

Fixpoint forallb (p : ascii → bool) (s : string) : bool :=
  match s with
  | EmptyString => true
  | String c r => p c && forallb p r
  end.

Definition head (s : string) : option ascii :=
  match s with EmptyString => None | String c _ => Some c end.

Fixpoint last (s : string) : option ascii :=
  match s with
  | EmptyString => None
  | String c EmptyString => Some c
  | String _ r => last r
  end.

Fixpoint count (c : ascii) (s : string) : nat :=
  match s with
  | EmptyString => 0
  | String d r => (if Ascii.eqb d c then 1 else 0) + count c r
  end.

(** Truth value of a [str]: false exactly for the empty string. *)
Definition truthy (s : string) : bool :=
  match s with EmptyString => false | _ => true end.

(** A field of whitespace only. *)
Definition blank (s : string) : bool := forallb isspace s.

(** No whitespace at either end. *)
Definition trimmed (t : string) : Prop :=
  (∀ c, head t = Some c → isspace c = false) ∧
  (∀ c, last t = Some c → isspace c = false).

End PyStr.

(** Truth value of an optional text ([None] or a [str]). *)
Definition truthy (o : option string) : bool :=
  match o with
  | None => false
  | Some s => PyStr.truthy s
  end.

(** ** Exceptions and results *)

Inductive exn : Type :=
  | FileNotFoundError
  | PermissionError
  | IsADirectoryError
  | JSONDecodeError
  | TypeError
  | KeyError
  | ProviderError (msg : string).

Global Instance exn_eq_dec : EqDecision exn.
Proof. solve_decision. Defined.

(** The outcome of a call: a value, a raised exception, or a value this
    development has no type for (a seen set with members that are not
    text of the modelled range). *)
Inductive result (A : Type) : Type :=
  | Ok (a : A)
  | Raise (e : exn)
  | Unmodelled.
Arguments Ok {A} a.
Arguments Raise {A} e.
Arguments Unmodelled {A}.

Global Instance result_ret : MRet result := λ A a, Ok a.
Global Instance result_bind : MBind result := λ A B f r,
  match r with
  | Ok a => f a
  | Raise e => Raise e
  | Unmodelled => Unmodelled
  end.

(** [try: body except (classes): handler]. *)
Definition try_result {A} (body : result A) (classes : exn → bool)
    (handler : exn → result A) : result A :=
  match body with
  | Raise e => if classes e then handler e else Raise e
  | r => r
  end.

(** ** The data the program handles *)

(** One raw record of the news provider, as far as the program reads it:
    an optional ['content'] mapping with optional ['link'], ['title'] and
    ['summary'] texts. *)
Record content : Type := Content {
  link : option string;
  title : option string;
  summary : option string
}.

Record article : Type := Article { article_content : option content }.

(** The [{}] that [article.get('content', {})] falls back to. *)
Definition empty_content : content := Content None None None.

(** The [article_data] dict built for each record. *)
Record article_data : Type := ArticleData {
  data_title : option string;
  data_summary : option string
}.

Global Instance article_data_eq_dec : EqDecision article_data.
Proof. solve_decision. Defined.

(** What [yf.Ticker(symbol).news] does: it raises, or it returns [None]
    or a list of records. *)
Inductive response : Type :=
  | Raises (e : exn)
  | Returns (news_list : option (list article)).

(** A node of the file system. *)
Inductive node : Type :=
  | File (text : string)
  | ReadOnly (text : string)
  | Directory.

(** The messages of the program, in the order of the source:
    - [Fetching]: "Fetching and analyzing stock market news..."
    - [WarnNoStockList]: "Warning: 'STOCK_LIST' not found in .env file or is empty."
    - [Collecting]: "Collecting all new articles..."
    - [Found n t]: "Found n news articles for t."
    - [CouldNotFetch t e]: "Could not fetch data for t: e"
    - [NoNewArticles]: "No new articles found to analyze."
    - [FoundNew n]: "Found new articles for n ticker(s). Analyzing..."
    - [PrintBatch d]: the dict itself. *)
Inductive event : Type :=
  | Fetching
  | WarnNoStockList
  | Collecting
  | Found (n : nat) (ticker_symbol : string)
  | CouldNotFetch (ticker_symbol : string) (e : exn)
  | NoNewArticles
  | FoundNew (n : nat)
  | PrintBatch (d : gmap string (list article_data)).

(** What the program reads but never changes: the entries of the [.env]
    file and the news provider. The provider is a function of the symbol:
    during one run it answers a symbol the same way each time. *)
Record world : Type := World {
  dotenv : gmap string string;
  yf_news : string → response
}.

(** What the program changes: the process environment, the files, the
    output, and the two objects [main] builds. *)
Record state : Type := State {
  environ : gmap string string;
  disk : gmap string node;
  stdout : list event;
  seen_urls : gset string;
  all_new_articles_by_ticker : gmap string (list article_data)
}.

Definition set_environ (v : gmap string string) (s : state) : state :=
  State v (disk s) (stdout s) (seen_urls s) (all_new_articles_by_ticker s).
Definition set_disk (v : gmap string node) (s : state) : state :=
  State (environ s) v (stdout s) (seen_urls s) (all_new_articles_by_ticker s).
Definition set_stdout (v : list event) (s : state) : state :=
  State (environ s) (disk s) v (seen_urls s) (all_new_articles_by_ticker s).
Definition set_seen_urls (v : gset string) (s : state) : state :=
  State (environ s) (disk s) (stdout s) v (all_new_articles_by_ticker s).
Definition set_articles (v : gmap string (list article_data)) (s : state)
    : state :=
  State (environ s) (disk s) (stdout s) (seen_urls s) v.

(** ** The monad of statements: state, with exceptions that keep it *)

Definition M (A : Type) : Type := state → result A * state.

Global Instance M_ret : MRet M := λ A a s, (Ok a, s).
Global Instance M_bind : MBind M := λ A B f m s,
  match m s with
  | (Ok a, s') => f a s'
  | (Raise e, s') => (Raise e, s')
  | (Unmodelled, s') => (Unmodelled, s')
  end.

Definition get {A} (proj : state → A) : M A := λ s, (Ok (proj s), s).
Definition modify (f : state → state) : M unit := λ s, (Ok tt, f s).
Definition lift {A} (r : result A) : M A := λ s, (r, s).
Definition raise {A} (e : exn) : M A := lift (Raise e).

Definition print (e : event) : M unit :=
  modify (λ s, set_stdout (stdout s ++ [e]) s).

(** [try: body except Exception as e: handler e]; every member of [exn]
    is an [Exception]. The state the body reached is kept. *)
Definition try_except (body : M unit) (handler : exn → M unit) : M unit :=
  λ s, match body s with
       | (Raise e, s') => handler e s'
       | r => r
       end.

(** [for x in l: body x]. *)
Fixpoint for_each {A} (l : list A) (body : A → M unit) : M unit :=
  match l with
  | [] => mret tt
  | x :: l' => body x ;; for_each l' body
  end.
Global Arguments for_each : simpl never.

(** ** The [json] module of the standard library

    [dumps] with [indent=4] on a list of [str], and [loads] on a text, as
    the interpreter's [json] package does them. *)

Module Json.

Local Set Warnings "-register-all".

Inductive value : Type :=
  | JNull
  | JBool (b : bool)
  | JNumber (literal : list ascii)
  | JString (s : list N)
  | JArray (items : list value)
  | JObject (members : list (list N * value)).

(** *** Encoding *)

(** A hexadecimal digit, lower case. *)
Definition hex_char (n : N) : ascii :=
  if (n <? 10)%N then ascii_of_N (48 + n) else ascii_of_N (87 + n).

(** The replacement of one character under [ensure_ascii]: the short
    escapes, the printable ASCII characters as they are, [\u00hh] for
    the rest. *)
Definition escape_char (c : ascii) : list ascii :=
  let n := N_of_ascii c in
  if (n =? 34)%N then ["092"; "034"]%char
  else if (n =? 92)%N then ["092"; "092"]%char
  else if (n =? 8)%N then ["092"; "b"]%char
  else if (n =? 12)%N then ["092"; "f"]%char
  else if (n =? 10)%N then ["092"; "n"]%char
  else if (n =? 13)%N then ["092"; "r"]%char
  else if (n =? 9)%N then ["092"; "t"]%char
  else if ((32 <=? n) && (n <=? 126))%N then [c]
  else ["092"; "u"; "0"; "0"; hex_char (n / 16); hex_char (n mod 16)]%char.

Definition encode_basestring_ascii (s : string) : list ascii :=
  "034"%char :: flat_map escape_char (list_ascii_of_string s)
    ++ ["034"%char].

(** A line feed and one level of four spaces. *)
Definition newline_indent : list ascii :=
  [ascii_of_N 10; " "; " "; " "; " "]%char.

(** An item after the first: the separator, the indentation, the item. *)
Definition separated (y : string) : list ascii :=
  ","%char :: newline_indent ++ encode_basestring_ascii y.

(** The end of a list: a line feed and the closing bracket. *)
Definition closing : list ascii := [ascii_of_N 10; "]"%char].

(** [json.dumps(l, indent=4)] for a list of [str]. *)
Definition dumps (l : list string) : list ascii :=
  match l with
  | [] => ["["; "]"]%char
  | x :: xs =>
      "["%char :: newline_indent ++ encode_basestring_ascii x
        ++ flat_map separated xs ++ closing
  end.

(** *** Decoding *)

Inductive parsed (A : Type) : Type :=
  | Parsed (a : A) (rest : list ascii)
  | SyntaxError
  | OutOfFuel.
Arguments Parsed {A} a rest.
Arguments SyntaxError {A}.
Arguments OutOfFuel {A}.

Definition is_ws (c : ascii) : bool :=
  let n := N_of_ascii c in
  ((n =? 32) || (n =? 9) || (n =? 10) || (n =? 13))%N.

Fixpoint skip_ws (s : list ascii) : list ascii :=
  match s with
  | c :: r => if is_ws c then skip_ws r else s
  | [] => []
  end.

Definition is_digit (c : ascii) : bool :=
  let n := N_of_ascii c in ((48 <=? n) && (n <=? 57))%N.

Definition hex_digit (c : ascii) : option N :=
  let n := N_of_ascii c in
  if ((48 <=? n) && (n <=? 57))%N then Some (n - 48)%N
  else if ((97 <=? n) && (n <=? 102))%N then Some (n - 87)%N
  else if ((65 <=? n) && (n <=? 70))%N then Some (n - 55)%N
  else None.

Definition hex4 (a b c d : ascii) : option N :=
  match hex_digit a, hex_digit b, hex_digit c, hex_digit d with
  | Some x, Some y, Some z, Some w => Some (((x * 16 + y) * 16 + z) * 16 + w)%N
  | _, _, _, _ => None
  end.

Definition is_high_surrogate (n : N) : bool :=
  ((55296 <=? n) && (n <=? 56319))%N.
Definition is_low_surrogate (n : N) : bool :=
  ((56320 <=? n) && (n <=? 57343))%N.
Definition join_surrogates (hi lo : N) : N :=
  (65536 + ((hi - 55296) * 1024 + (lo - 56320)))%N.

(** The character a backslash escape other than [\u] stands for. *)
Definition backslash (c : ascii) : option N :=
  let n := N_of_ascii c in
  if ((n =? 34) || (n =? 92) || (n =? 47))%N then Some n
  else if (n =? 98)%N then Some 8%N
  else if (n =? 102)%N then Some 12%N
  else if (n =? 110)%N then Some 10%N
  else if (n =? 114)%N then Some 13%N
  else if (n =? 116)%N then Some 9%N
  else None.

Definition prepend (n : N) (r : option (list N * list ascii))
    : option (list N * list ascii) :=
  match r with
  | Some (cs, rest) => Some (n :: cs, rest)
  | None => None
  end.

(** [scanstring], strict: from just after the opening quote to just
    after the closing one. A raw control character, a bad escape and a
    missing closing quote are errors; a high surrogate escape directly
    followed by a low surrogate escape gives one code point. *)
Fixpoint scanstring (s : list ascii) : option (list N * list ascii) :=
  match s with
  | [] => None
  | c :: r =>
      if (N_of_ascii c =? 34)%N then Some ([], r)
      else if (N_of_ascii c =? 92)%N then
        match r with
        | [] => None
        | e :: r1 =>
            if (N_of_ascii e =? 117)%N then
              match r1 with
              | h1 :: h2 :: h3 :: h4 :: r2 =>
                  match hex4 h1 h2 h3 h4 with
                  | None => None
                  | Some uni =>
                      if is_high_surrogate uni then
                        match r2 with
                        | b :: u :: g1 :: g2 :: g3 :: g4 :: r3 =>
                            if ((N_of_ascii b =? 92) && (N_of_ascii u =? 117))%N
                            then
                              match hex4 g1 g2 g3 g4 with
                              | None => None
                              | Some uni2 =>
                                  if is_low_surrogate uni2
                                  then prepend (join_surrogates uni uni2)
                                         (scanstring r3)
                                  else prepend uni (scanstring r2)
                              end
                            else prepend uni (scanstring r2)
                        | _ => prepend uni (scanstring r2)
                        end
                      else prepend uni (scanstring r2)
                  end
              | _ => None
              end
            else
              match backslash e with
              | Some n => prepend n (scanstring r1)
              | None => None
              end
        end
      else if (N_of_ascii c <? 32)%N then None
      else prepend (N_of_ascii c) (scanstring r)
  end.

Fixpoint span_digits (s : list ascii) : list ascii * list ascii :=
  match s with
  | c :: r =>
      if is_digit c then let (ds, r') := span_digits r in (c :: ds, r')
      else ([], s)
  | [] => ([], [])
  end.

(** The optional fraction of a number: a dot and at least one digit. *)
Definition match_frac (lit s : list ascii) : list ascii * list ascii :=
  match s with
  | c :: r =>
      if (N_of_ascii c =? 46)%N then
        match span_digits r with
        | ([], _) => (lit, s)
        | (ds, r') => (lit ++ c :: ds, r')
        end
      else (lit, s)
  | [] => (lit, s)
  end.

(** The optional exponent: [e] or [E], an optional sign, and at least
    one digit. *)
Definition match_exp (lit s : list ascii) : list ascii * list ascii :=
  match s with
  | c :: r =>
      if ((N_of_ascii c =? 101) || (N_of_ascii c =? 69))%N then
        let (sign, r1) :=
          match r with
          | g :: r' =>
              if ((N_of_ascii g =? 43) || (N_of_ascii g =? 45))%N
              then ([g], r') else ([], r)
          | [] => ([], r)
          end in
        match span_digits r1 with
        | ([], _) => (lit, s)
        | (ds, r2) => (lit ++ c :: sign ++ ds, r2)
        end
      else (lit, s)
  | [] => (lit, s)
  end.

Definition match_tail (lit s : list ascii) : list ascii * list ascii :=
  let (lit1, s1) := match_frac lit s in match_exp lit1 s1.

(** The number at the head of [s]: an optional minus, then [0] or a
    digit from 1 to 9 and more digits, then fraction and exponent. *)
Definition match_number (s : list ascii)
    : option (list ascii * list ascii) :=
  let (sign, s1) :=
    match s with
    | c :: r => if (N_of_ascii c =? 45)%N then ([c], r) else ([], s)
    | [] => ([], s)
    end in
  match s1 with
  | d :: r =>
      if (N_of_ascii d =? 48)%N then Some (match_tail (sign ++ [d]) r)
      else if is_digit d then
        let (ds, r') := span_digits r in
        Some (match_tail (sign ++ d :: ds) r')
      else None
  | [] => None
  end.

(** [s] starts with the word [w]: what follows it. *)
Fixpoint after_prefix (w s : list ascii) : option (list ascii) :=
  match w, s with
  | [], _ => Some s
  | a :: w', b :: s' => if Ascii.eqb a b then after_prefix w' s' else None
  | _ :: _, [] => None
  end.

Definition lit_null := list_ascii_of_string "null".
Definition lit_true := list_ascii_of_string "true".
Definition lit_false := list_ascii_of_string "false".
Definition lit_NaN := list_ascii_of_string "NaN".
Definition lit_Infinity := list_ascii_of_string "Infinity".
Definition lit_minus_Infinity := list_ascii_of_string "-Infinity".

(** The scalar at the head of [s] that needs no recursion: a constant
    or a number. *)
Definition scan_scalar (s : list ascii) : parsed value :=
  match after_prefix lit_null s with
  | Some r => Parsed JNull r
  | None =>
  match after_prefix lit_true s with
  | Some r => Parsed (JBool true) r
  | None =>
  match after_prefix lit_false s with
  | Some r => Parsed (JBool false) r
  | None =>
  match match_number s with
  | Some (lit, r) => Parsed (JNumber lit) r
  | None =>
  match after_prefix lit_NaN s with
  | Some r => Parsed (JNumber lit_NaN) r
  | None =>
  match after_prefix lit_Infinity s with
  | Some r => Parsed (JNumber lit_Infinity) r
  | None =>
  match after_prefix lit_minus_Infinity s with
  | Some r => Parsed (JNumber lit_minus_Infinity) r
  | None => SyntaxError
  end end end end end end end.

(** [scan_once], with the loops of [JSONArray] and [JSONObject]:
    [scan_items] stands at the start of an item, [scan_members] at the
    opening quote of a key. *)
Fixpoint scan_once (fuel : nat) (s : list ascii) : parsed value :=
  match fuel with
  | O => OutOfFuel
  | S fuel' =>
      match s with
      | [] => SyntaxError
      | c :: r =>
          if (N_of_ascii c =? 34)%N then
            match scanstring r with
            | Some (cs, r') => Parsed (JString cs) r'
            | None => SyntaxError
            end
          else if (N_of_ascii c =? 123)%N then
            match skip_ws r with
            | d :: r1 =>
                if (N_of_ascii d =? 125)%N then Parsed (JObject []) r1
                else
                  match scan_members fuel' (d :: r1) with
                  | Parsed kvs r2 => Parsed (JObject kvs) r2
                  | SyntaxError => SyntaxError
                  | OutOfFuel => OutOfFuel
                  end
            | [] => SyntaxError
            end
          else if (N_of_ascii c =? 91)%N then
            match skip_ws r with
            | d :: r1 =>
                if (N_of_ascii d =? 93)%N then Parsed (JArray []) r1
                else
                  match scan_items fuel' (d :: r1) with
                  | Parsed vs r2 => Parsed (JArray vs) r2
                  | SyntaxError => SyntaxError
                  | OutOfFuel => OutOfFuel
                  end
            | [] => SyntaxError
            end
          else scan_scalar s
      end
  end
with scan_items (fuel : nat) (s : list ascii) : parsed (list value) :=
  match fuel with
  | O => OutOfFuel
  | S fuel' =>
      match scan_once fuel' s with
      | Parsed v r =>
          match skip_ws r with
          | d :: r1 =>
              if (N_of_ascii d =? 93)%N then Parsed [v] r1
              else if (N_of_ascii d =? 44)%N then
                match scan_items fuel' (skip_ws r1) with
                | Parsed vs r2 => Parsed (v :: vs) r2
                | SyntaxError => SyntaxError
                | OutOfFuel => OutOfFuel
                end
              else SyntaxError
          | [] => SyntaxError
          end
      | SyntaxError => SyntaxError
      | OutOfFuel => OutOfFuel
      end
  end
with scan_members (fuel : nat) (s : list ascii)
    : parsed (list (list N * value)) :=
  match fuel with
  | O => OutOfFuel
  | S fuel' =>
      match s with
      | q :: r =>
          if (N_of_ascii q =? 34)%N then
            match scanstring r with
            | None => SyntaxError
            | Some (k, r1) =>
                match skip_ws r1 with
                | col :: r2 =>
                    if (N_of_ascii col =? 58)%N then
                      match scan_once fuel' (skip_ws r2) with
                      | Parsed v r3 =>
                          match skip_ws r3 with
                          | d :: r4 =>
                              if (N_of_ascii d =? 125)%N
                              then Parsed [(k, v)] r4
                              else if (N_of_ascii d =? 44)%N then
                                match scan_members fuel' (skip_ws r4) with
                                | Parsed kvs r5 => Parsed ((k, v) :: kvs) r5
                                | SyntaxError => SyntaxError
                                | OutOfFuel => OutOfFuel
                                end
                              else SyntaxError
                          | [] => SyntaxError
                          end
                      | SyntaxError => SyntaxError
                      | OutOfFuel => OutOfFuel
                      end
                    else SyntaxError
                | [] => SyntaxError
                end
            end
          else SyntaxError
      | [] => SyntaxError
      end
  end.

(** Fuel that always suffices: every call of the three scanners but the
    first one has consumed a character. *)
Definition enough (s : list ascii) : nat := 2 * length s + 2.

(** [json.loads]: leading blanks, one value, trailing blanks, and
    nothing more. *)
Definition loads (text : list ascii) : parsed value :=
  match scan_once (enough text) (skip_ws text) with
  | Parsed v r =>
      match skip_ws r with
      | [] => Parsed v []
      | _ :: _ => SyntaxError
      end
  | SyntaxError => SyntaxError
  | OutOfFuel => OutOfFuel
  end.

End Json.

(** ** Files *)

(** [open(path, 'r')] and reading the whole text. *)
Definition open_r (fs : gmap string node) (path : string) : result string :=
  match fs !! path with
  | None => Raise FileNotFoundError
  | Some (File text) => Ok text
  | Some (ReadOnly text) => Ok text
  | Some Directory => Raise IsADirectoryError
  end.

(** [open(path, 'w')], writing [text] and closing: the file is created
    or replaced; a read-only file and a directory refuse. *)
Definition open_w (fs : gmap string node) (path text : string)
    : result (gmap string node) :=
  match fs !! path with
  | None => Ok (<[path := File text]> fs)
  | Some (File _) => Ok (<[path := File text]> fs)
  | Some (ReadOnly _) => Raise PermissionError
  | Some Directory => Raise IsADirectoryError
  end.

(** [json.load(f)] on the text of [f]. *)
Definition json_load (text : string) : result Json.value :=
  match Json.loads (list_ascii_of_string text) with
  | Json.Parsed v _ => Ok v
  | Json.SyntaxError => Raise JSONDecodeError
  | Json.OutOfFuel => Unmodelled
  end.

(** [json.dump(l, f, indent=4)]: the text written to [f]. *)
Definition json_dump (l : list string) : string :=
  string_of_list_ascii (Json.dumps l).

(** ** Building a [set] from a decoded document *)

(** A decoded string as a [str] of the modelled range, if it is one. *)
Definition narrow (cs : list N) : option string :=
  if forallb (λ n, n <? 256)%N cs
  then Some (string_of_list_ascii (map ascii_of_N cs))
  else None.

Definition as_text (v : Json.value) : option string :=
  match v with
  | Json.JString cs => narrow cs
  | _ => None
  end.

(** Lists and dicts cannot be members of a set. *)
Definition unhashable (v : Json.value) : bool :=
  match v with
  | Json.JArray _ | Json.JObject _ => true
  | _ => false
  end.

(** [set(v)]: a scalar other than a string is not iterable; a list gives
    its items, and raises when one of them is unhashable; a string gives
    its characters; a dict gives its keys. *)
Definition py_set (v : Json.value) : result (gset string) :=
  match v with
  | Json.JNull | Json.JBool _ | Json.JNumber _ => Raise TypeError
  | Json.JArray items =>
      if existsb unhashable items then Raise TypeError
      else match mapM as_text items with
           | Some l => Ok (list_to_set l)
           | None => Unmodelled
           end
  | Json.JString cs =>
      match narrow cs with
      | Some s =>
          Ok (list_to_set
                (map (λ c, String c EmptyString) (list_ascii_of_string s)))
      | None => Unmodelled
      end
  | Json.JObject members =>
      match mapM narrow (map fst members) with
      | Some keys => Ok (list_to_set keys)
      | None => Unmodelled
      end
  end.

(** ** The program *)

Definition SEEN_NEWS_FILE : string := "seen_news.json".

(** The classes of [except (FileNotFoundError, json.JSONDecodeError)]. *)
Definition not_found_or_decode (e : exn) : bool :=
  match e with
  | FileNotFoundError | JSONDecodeError => true
  | _ => false
  end.

(** The body of [load_seen_news] on the files [fs]: the [try] around
    [open], [json.load] and [set], and the [except] that returns
    [set()]. *)
Definition stored (fs : gmap string node) (file_path : string)
    : result (gset string) :=
  try_result
    (text ← open_r fs file_path;
     v ← json_load text;
     py_set v)
    not_found_or_decode
    (λ _, Ok ∅).

(** [load_seen_news(file_path)]: it reads the files and changes
    nothing. *)
Definition load_seen_news (file_path : string) : M (gset string) :=
  λ s, (stored (disk s) file_path, s).

(** [save_seen_news(file_path, seen_urls)]; [list(seen_urls)] lists the
    members in the order of [elements]. *)
Definition save_seen_news (file_path : string) (seen : gset string)
    : M unit :=
  λ s,
    match open_w (disk s) file_path (json_dump (elements seen)) with
    | Ok fs' => (Ok tt, set_disk fs' s)
    | Raise e => (Raise e, s)
    | Unmodelled => (Unmodelled, s)
    end.

(** [load_dotenv()]: the entries of the [.env] file enter the
    environment; a variable that is already set keeps its value. *)
Definition load_dotenv (w : world) : M unit :=
  modify (λ s, set_environ (environ s ∪ dotenv w) s).

(** [os.getenv(name)] *)
Definition getenv (name : string) : M (option string) :=
  get (λ s, environ s !! name).

(** [get_stock_tickers()] *)
Definition get_stock_tickers (w : world) : M (list string) :=
  load_dotenv w ;;
  stock_list_str ← getenv "STOCK_LIST";
  match stock_list_str with
  | Some (String c r) =>
      mret (map PyStr.strip (PyStr.split "," (String c r)))
  | _ => print WarnNoStockList ;; mret []
  end.

(** [article.get('content', {})] *)
Definition get_content (a : article) : content :=
  default empty_content (article_content a).

(** [article.get('content', {}).get('link', 'data not available')] *)
Definition get_url (a : article) : string :=
  default "data not available" (link (get_content a)).

Definition get_data (a : article) : article_data :=
  ArticleData (title (get_content a)) (summary (get_content a)).

(** The body of [for article in news_list] (lines 73 to 89). *)
Definition process_article (ticker_symbol : string) (a : article) : M unit :=
  let article_url := get_url a in
  d ← get all_new_articles_by_ticker;
  match d !! ticker_symbol with
  | None => modify (λ s, set_articles (<[ticker_symbol := []]> d) s)
  | Some _ => mret tt
  end ;;
  let article_data := get_data a in
  (if truthy (data_title article_data) then
     d ← get all_new_articles_by_ticker;
     match d !! ticker_symbol with
     | Some l =>
         modify (λ s, set_articles
                        (<[ticker_symbol := l ++ [article_data]]> d) s)
     | None => raise KeyError
     end
   else mret tt) ;;
  modify (λ s, set_seen_urls (seen_urls s ∪ {[article_url]}) s).

(** [yf.Ticker(ticker_symbol).news] *)
Definition fetch_news (w : world) (ticker_symbol : string)
    : M (option (list article)) :=
  lift (match yf_news w ticker_symbol with
        | Raises e => Raise e
        | Returns news_list => Ok news_list
        end).

(** The body of [for ticker_symbol in tickers] (lines 65 to 91);
    [continue] ends it when the list is [None] or empty. *)
Definition collect_ticker (w : world) (ticker_symbol : string) : M unit :=
  try_except
    (news_list ← fetch_news w ticker_symbol;
     match news_list with
     | None | Some [] => mret tt
     | Some news_list =>
         print (Found (length news_list) ticker_symbol) ;;
         for_each news_list (process_article ticker_symbol)
     end)
    (λ e, print (CouldNotFetch ticker_symbol e)).

(** Step 1 of [main] (lines 62 to 91): the aggregation phase. *)
Definition collect_articles (w : world) (tickers : list string) : M unit :=
  modify (set_articles ∅) ;;
  print Collecting ;;
  for_each tickers (collect_ticker w).

(** Step 2 of [main] (lines 94 to 99); the analysis and the saving that
    follow in the source are comments. *)
Definition report : M unit :=
  d ← get all_new_articles_by_ticker;
  if decide (d = ∅) then print NoNewArticles
  else print (FoundNew (size d)) ;; print (PrintBatch d).

(** [main()] *)
Definition main (w : world) : M unit :=
  print Fetching ;;
  load_dotenv w ;;
  tickers ← get_stock_tickers w;
  _ ← getenv "GEMINI_API_KEY";
  seen ← load_seen_news SEEN_NEWS_FILE;
  modify (set_seen_urls seen) ;;
  collect_articles w tickers ;;
  report.

(** The state a process starts in: its environment and files, no output
    yet, and the objects of [main] not yet built. *)
Definition start (env : gmap string string) (fs : gmap string node) : state :=
  State env fs [] ∅ ∅.

(** ** What a run computes, as plain functions

    The state after each loop of [main], written without the monad; the
    lemmas below show that the program reaches exactly these states. *)

Global Instance content_eq_dec : EqDecision content.
Proof. solve_decision. Defined.
Global Instance article_eq_dec : EqDecision article.
Proof. solve_decision. Defined.

(** The records the provider returns for a symbol: none when it raises
    or returns [None]. *)
Definition returned (w : world) (t : string) : list article :=
  match yf_news w t with
  | Returns (Some l) => l
  | _ => []
  end.

(** An item has a title that [if article_data['title']] accepts. *)
Definition has_title (a : article) : bool := truthy (title (get_content a)).

(** The [article_data] of the titled records of a list, in order. *)
Definition titled (l : list article) : list article_data :=
  map get_data (List.filter has_title l).

Definition urls (l : list article) : list string := map get_url l.

Fixpoint occurrences (t : string) (tickers : list string) : nat :=
  match tickers with
  | [] => 0
  | x :: r => (if decide (x = t) then 1 else 0) + occurrences t r
  end.

(** The state after one turn of the inner loop. *)
Definition article_step (t : string) (a : article) (s : state) : state :=
  let d := all_new_articles_by_ticker s in
  let l := default [] (d !! t) ++ (if has_title a then [get_data a] else []) in
  set_seen_urls (seen_urls s ∪ {[get_url a]}) (set_articles (<[t := l]> d) s).

(** What one turn of the outer loop prints. *)
Definition ticker_log (w : world) (t : string) : list event :=
  match yf_news w t with
  | Raises e => [CouldNotFetch t e]
  | Returns (Some (a :: l)) => [Found (length (a :: l)) t]
  | Returns _ => []
  end.

(** The state after one turn of the outer loop. *)
Definition ticker_step (w : world) (t : string) (s : state) : state :=
  foldl (λ s a, article_step t a s)
        (set_stdout (stdout s ++ ticker_log w t) s) (returned w t).

(** The state after the aggregation phase. *)
Definition aggregated (w : world) (tickers : list string) (s : state)
    : state :=
  foldl (λ s t, ticker_step w t s)
        (set_stdout (stdout s ++ [Collecting]) (set_articles ∅ s)) tickers.

(** What step 2 prints. *)
Definition report_log (d : gmap string (list article_data)) : list event :=
  if decide (d = ∅) then [NoNewArticles] else [FoundNew (size d); PrintBatch d].

Definition reported (s : state) : state :=
  set_stdout (stdout s ++ report_log (all_new_articles_by_ticker s)) s.

(** The tickers a process is configured with: the fields of [STOCK_LIST],
    from the environment or else from the [.env] file. *)
Definition configured (w : world) (s : state) : list string :=
  match (environ s ∪ dotenv w) !! "STOCK_LIST" with
  | Some (String c r) => map PyStr.strip (PyStr.split "," (String c r))
  | _ => []
  end.

(** What [main] has done when it comes to load the seen set. *)
Definition prelude (w : world) (s : state) : state :=
  let log :=
    match (environ s ∪ dotenv w) !! "STOCK_LIST" with
    | Some (String _ _) => [Fetching]
    | _ => [Fetching; WarnNoStockList]
    end in
  set_environ (environ s ∪ dotenv w) (set_stdout (stdout s ++ log) s).

(** [open(path, 'w')] succeeds. *)
Definition writable (fs : gmap string node) (path : string) : bool :=
  match fs !! path with
  | Some (ReadOnly _) | Some Directory => false
  | _ => true
  end.

(** The code points of a [str], as the decoder gives them. *)
Definition codes (s : string) : list N :=
  map N_of_ascii (list_ascii_of_string s).

(** Every address the provider returns for the tickers of a list. *)
Definition all_urls (w : world) (tickers : list string) : list string :=
  flat_map (λ t, urls (returned w t)) tickers.

(** ** Sample data

    The run of the specification's example: AAPL has a titled and an
    untitled record, MSFT has none; besides, a symbol whose records all
    lack a title and one for which the provider raises. *)

Definition titled_item : article :=
  Article (Some (Content (Some "u1") (Some "Apple rises") (Some "Shares up"))).

Definition untitled_item : article :=
  Article (Some (Content (Some "u2") None None)).

Definition sample_news (t : string) : response :=
  if decide (t = "AAPL") then Returns (Some [titled_item; untitled_item])
  else if decide (t = "ODD") then Returns (Some [untitled_item])
  else if decide (t = "BAD") then Raises (ProviderError "no data")
  else Returns (Some []).

Definition sample_world : world := World ∅ sample_news.

(** A process configured with the tickers [cfg], an empty directory. *)
Definition sample_start (cfg : string) : state :=
  start {["STOCK_LIST" := cfg]} ∅.

(** ** More sample data and predicates *)

(** A provider whose records have no address: one without ['content'],
    one with an empty ['content']. *)
Definition bare_world : world :=
  World ∅ (λ _, Returns (Some [Article None; Article (Some empty_content)])).

(** A process whose storage holds a seen set from an earlier run. *)
Definition stale_start : state :=
  start {["STOCK_LIST" := "AAPL"]}
    {[SEEN_NEWS_FILE := File (json_dump ["u1"])]}.

(** A process whose storage holds the document [null]. *)
Definition null_start : state :=
  start {["STOCK_LIST" := "AAPL"]} {[SEEN_NEWS_FILE := File "null"]}.

(** What [set] cannot be built from: a scalar that is not a string, or a
    list with a list or a dict in it. *)
Definition not_a_set (v : Json.value) : bool :=
  match v with
  | Json.JNull | Json.JBool _ | Json.JNumber _ => true
  | Json.JArray items => existsb unhashable items
  | _ => false
  end.

(** No whitespace anywhere in a text. *)
Definition solid (s : string) : bool :=
  PyStr.forallb (λ c, negb (PyStr.isspace c)) s.

(** A line feed or a printable ASCII character. *)
Definition plain (c : ascii) : bool :=
  let n := N_of_ascii c in ((n =? 10) || (32 <=? n) && (n <=? 126))%N.

Definition LF : ascii := ascii_of_N 10.

(** ** Tactics *)

(** Unfolds the operations of [M]. *)
Ltac run_m :=
  unfold mbind, M_bind, mret, M_ret, get, modify, print, lift, raise,
    try_except; simpl.

(** * Facts about strings *)

Section Strings.
Import PyStr.

Lemma split_length sep s : length (split sep s) = S (count sep s).
Proof.
  induction s as [|c r IH]; [done|]. cbn [split count].
  destruct (Ascii.eqb c sep); cbn [length]; [by rewrite IH|].
  destruct (split sep r) as [|f fs]; [done|]. cbn [length] in *. lia.
Qed.

Lemma split_not_nil sep s : split sep s ≠ [].
Proof.
  destruct s as [|c r]; [done|]. cbn [split].
  destruct (Ascii.eqb c sep); [done|]. by destruct (split sep r).
Qed.

Lemma join_cons sep f g fs :
  join sep (f :: g :: fs) = f +:+ String sep (join sep (g :: fs)).
Proof. done. Qed.

Lemma join_split sep s : join sep (split sep s) = s.
Proof.
  induction s as [|c r IH]; [done|]. cbn [split].
  pose proof (split_not_nil sep r) as Hne.
  destruct (split sep r) as [|f fs]; [done|].
  destruct (Ascii.eqb c sep) eqn:Hc.
  - apply Ascii.eqb_eq in Hc as ->. rewrite join_cons, IH. reflexivity.
  - destruct fs as [|g fs].
    + cbn [join] in *. by rewrite IH.
    + rewrite join_cons in *. rewrite <- IH. reflexivity.
Qed.

Lemma split_no_sep sep s : Forall (λ f, count sep f = 0) (split sep s).
Proof.
  induction s as [|c r IH]; [by repeat constructor|]. cbn [split].
  destruct (Ascii.eqb c sep) eqn:Hc.
  - by constructor.
  - destruct (split sep r) as [|f fs]; [|inversion_clear IH];
      constructor; cbn [count]; rewrite ?Hc; done.
Qed.

Lemma lstrip_head s c : head (lstrip s) = Some c → isspace c = false.
Proof.
  induction s as [|d r IH]; [done|]. cbn [lstrip].
  destruct (isspace d) eqn:Hd; [done|]. by intros [= <-].
Qed.

Lemma lstrip_blank s : lstrip s = "" ↔ blank s = true.
Proof.
  unfold blank. induction s as [|d r IH]; [done|]. cbn [lstrip forallb].
  destruct (isspace d); [done|]. by split.
Qed.

Lemma rstrip_blank s : rstrip s = "" ↔ blank s = true.
Proof.
  unfold blank. induction s as [|d r IH]; [done|]. cbn [rstrip forallb].
  destruct (rstrip r) as [|e r'] eqn:Hr.
  - destruct (isspace d); [|by split]. simpl. tauto.
  - split; [done|]. intros [_ H]%andb_true_iff. by apply IH in H.
Qed.

Lemma rstrip_last s c : last (rstrip s) = Some c → isspace c = false.
Proof.
  induction s as [|d r IH]; [done|]. cbn [rstrip].
  destruct (rstrip r) as [|e r'] eqn:Hr.
  - destruct (isspace d) eqn:Hd; [done|]. by intros [= <-].
  - cbn [last]. exact IH.
Qed.

Lemma rstrip_head s c :
  head s = Some c → isspace c = false → head (rstrip s) = Some c.
Proof.
  destruct s as [|d r]; [done|]. intros [= ->] Hc. cbn [rstrip].
  destruct (rstrip r); [by rewrite Hc|done].
Qed.

Lemma blank_lstrip s : blank (lstrip s) = blank s.
Proof.
  unfold blank. induction s as [|d r IH]; [done|]. cbn [lstrip forallb].
  by destruct (isspace d) eqn:Hd; cbn [forallb]; rewrite ?Hd.
Qed.

(** [strip] leaves no whitespace at either end. *)
Lemma strip_trimmed s : trimmed (strip s).
Proof.
  unfold strip. split; [|apply rstrip_last].
  intros c Hc. destruct (lstrip s) as [|d r] eqn:Hl; [done|].
  assert (isspace d = false) as Hd by (apply (lstrip_head s); by rewrite Hl).
  rewrite (rstrip_head (String d r) d) in Hc by done. by simplify_eq.
Qed.

(** [strip] gives the empty string exactly on blank fields. *)
Lemma strip_empty s : strip s = "" ↔ blank s = true.
Proof. unfold strip. by rewrite rstrip_blank, blank_lstrip. Qed.

End Strings.

(** * Facts about the [json] module *)

Section JsonFacts.
Import Json.

Lemma skip_ws_length s : (length (skip_ws s) ≤ length s)%nat.
Proof.
  induction s as [|c r IH]; simpl; [done|]. destruct (is_ws c); simpl; lia.
Qed.

Lemma skip_ws_cons s d r : skip_ws s = d :: r → (length r < length s)%nat.
Proof. intros H. pose proof (skip_ws_length s) as Hl. rewrite H in Hl. simpl in Hl. lia. Qed.

Lemma prepend_Some n o cs r :
  prepend n o = Some (cs, r) → ∃ cs', o = Some (cs', r).
Proof. destruct o as [[cs' r']|]; simpl; [|done]. intros [= <- <-]. eauto. Qed.

Lemma scanstring_shorter n : ∀ s cs r,
  (length s ≤ n)%nat → scanstring s = Some (cs, r) → (length r < length s)%nat.
Proof.
  induction n as [|n IH]; intros s cs r Hn H.
  - destruct s; [done|simpl in Hn; lia].
  - destruct s as [|c s]; [done|]. simpl in Hn.
    cbn [scanstring] in H.
    repeat (case_match; simplify_eq; try done); cbn [length] in *;
      try (apply prepend_Some in H as [cs' H]; apply IH in H;
           cbn [length] in *; lia);
      lia.
Qed.

Lemma span_digits_length s ds r :
  span_digits s = (ds, r) → (length r ≤ length s)%nat.
Proof.
  revert ds r. induction s as [|c s IH]; intros ds r H; simpl in H.
  - by simplify_eq.
  - destruct (is_digit c).
    + destruct (span_digits s) as [ds' r'] eqn:Hs. simplify_eq.
      specialize (IH _ _ eq_refl). simpl. lia.
    + by simplify_eq.
Qed.

Lemma match_frac_length lit s lit' r :
  match_frac lit s = (lit', r) → (length r ≤ length s)%nat.
Proof.
  unfold match_frac. intros H.
  repeat (case_match; simplify_eq; try done);
    match goal with
    | Hs : span_digits _ = _ |- _ => apply span_digits_length in Hs; simpl in *; lia
    end.
Qed.

Lemma match_exp_length lit s lit' r :
  match_exp lit s = (lit', r) → (length r ≤ length s)%nat.
Proof.
  unfold match_exp. intros H.
  repeat (case_match; simplify_eq; try done);
    match goal with
    | Hs : span_digits _ = _ |- _ => apply span_digits_length in Hs; simpl in *; lia
    end.
Qed.

Lemma match_tail_length lit s lit' r :
  match_tail lit s = (lit', r) → (length r ≤ length s)%nat.
Proof.
  unfold match_tail. intros H.
  destruct (match_frac lit s) as [l1 s1] eqn:Hf.
  apply match_frac_length in Hf. apply match_exp_length in H. lia.
Qed.

Lemma match_number_shorter s lit r :
  match_number s = Some (lit, r) → (length r < length s)%nat.
Proof.
  unfold match_number. intros H.
  repeat (case_match; simplify_eq; try done);
    repeat match goal with
    | Hs : span_digits _ = _ |- _ => apply span_digits_length in Hs
    | Hs : match_tail _ _ = _ |- _ => apply match_tail_length in Hs
    end; simpl in *; lia.
Qed.

Lemma after_prefix_length w s r :
  after_prefix w s = Some r → (length r + length w = length s)%nat.
Proof.
  revert s. induction w as [|a w IH]; intros s H; simpl in H.
  - simplify_eq. simpl. lia.
  - destruct s as [|b s]; [done|]. destruct (Ascii.eqb a b); [|done].
    apply IH in H. simpl. lia.
Qed.

Lemma scan_scalar_shorter s v r :
  scan_scalar s = Parsed v r → (length r < length s)%nat.
Proof.
  unfold scan_scalar. intros H.
  repeat (case_match; simplify_eq; try done);
    repeat match goal with
    | Hs : after_prefix _ _ = Some _ |- _ => apply after_prefix_length in Hs
    | Hs : match_number _ = Some _ |- _ => apply match_number_shorter in Hs
    end; simpl in *; lia.
Qed.

Lemma scan_shorter fuel :
  (∀ s v r, scan_once fuel s = Parsed v r → (length r < length s)%nat) ∧
  (∀ s vs r, scan_items fuel s = Parsed vs r → (length r < length s)%nat) ∧
  (∀ s kvs r, scan_members fuel s = Parsed kvs r → (length r < length s)%nat).
Proof.
  induction fuel as [|fuel (IHo & IHi & IHm)]; [by repeat split|].
  repeat split; intros s x r H.
  - destruct s as [|c s]; [done|]. cbn [scan_once] in H.
    repeat (case_match; simplify_eq; try done);
      repeat match goal with
      | Hs : scanstring _ = Some _ |- _ =>
          apply (scanstring_shorter _ _ _ _ (le_n _)) in Hs
      | Hs : skip_ws _ = _ :: _ |- _ => apply skip_ws_cons in Hs
      | Hs : scan_items fuel _ = Parsed _ _ |- _ => apply IHi in Hs
      | Hs : scan_members fuel _ = Parsed _ _ |- _ => apply IHm in Hs
      | Hs : scan_scalar _ = Parsed _ _ |- _ => apply scan_scalar_shorter in Hs
      end; cbn [length] in *; lia.
  - cbn [scan_items] in H.
    repeat (case_match; simplify_eq; try done);
      repeat match goal with
      | Hs : skip_ws _ = _ :: _ |- _ => apply skip_ws_cons in Hs
      | Hs : scan_once fuel _ = Parsed _ _ |- _ => apply IHo in Hs
      | Hs : scan_items fuel _ = Parsed _ _ |- _ => apply IHi in Hs
      end;
      repeat match goal with
      | Hs : context [skip_ws ?t] |- _ =>
          lazymatch goal with
          | _ : (length (skip_ws t) ≤ length t)%nat |- _ => fail
          | _ => pose proof (skip_ws_length t)
          end
      end; cbn [length] in *; lia.
  - cbn [scan_members] in H.
    repeat (case_match; simplify_eq; try done);
      repeat match goal with
      | Hs : scanstring _ = Some _ |- _ =>
          apply (scanstring_shorter _ _ _ _ (le_n _)) in Hs
      | Hs : skip_ws _ = _ :: _ |- _ => apply skip_ws_cons in Hs
      | Hs : scan_once fuel _ = Parsed _ _ |- _ => apply IHo in Hs
      | Hs : scan_members fuel _ = Parsed _ _ |- _ => apply IHm in Hs
      end;
      repeat match goal with
      | Hs : context [skip_ws ?t] |- _ =>
          lazymatch goal with
          | _ : (length (skip_ws t) ≤ length t)%nat |- _ => fail
          | _ => pose proof (skip_ws_length t)
          end
      end; cbn [length] in *; lia.
Qed.

Ltac note_lengths :=
  repeat match goal with
  | Hs : scanstring _ = Some _ |- _ =>
      apply (scanstring_shorter _ _ _ _ (le_n _)) in Hs
  | Hs : skip_ws _ = _ :: _ |- _ => apply skip_ws_cons in Hs
  | Hs : scan_once _ _ = Parsed _ _ |- _ =>
      apply (proj1 (scan_shorter _)) in Hs
  end;
  repeat match goal with
  | |- context [skip_ws ?t] =>
      lazymatch goal with
      | _ : (length (skip_ws t) ≤ length t)%nat |- _ => fail
      | _ => pose proof (skip_ws_length t)
      end
  | _ : context [skip_ws ?t] |- _ =>
      lazymatch goal with
      | _ : (length (skip_ws t) ≤ length t)%nat |- _ => fail
      | _ => pose proof (skip_ws_length t)
      end
  end.

Lemma scan_fuel fuel :
  (∀ s, (2 * length s + 1 ≤ fuel)%nat → scan_once fuel s ≠ OutOfFuel) ∧
  (∀ s, (2 * length s + 2 ≤ fuel)%nat → scan_items fuel s ≠ OutOfFuel) ∧
  (∀ s, (2 * length s + 2 ≤ fuel)%nat → scan_members fuel s ≠ OutOfFuel).
Proof.
  induction fuel as [|fuel (IHo & IHi & IHm)].
  { repeat split; intros s Hs; lia. }
  repeat split; intros s Hf.
  - destruct s as [|c s]; [done|]. cbn [length] in Hf. cbn [scan_once].
    repeat (case_match; simplify_eq; try done).
    + exfalso. eapply IHm; [|eassumption]. note_lengths. cbn [length] in *. lia.
    + exfalso. eapply IHi; [|eassumption]. note_lengths. cbn [length] in *. lia.
    + unfold scan_scalar. by repeat case_match.
  - cbn [scan_items].
    repeat (case_match; simplify_eq; try done).
    + exfalso. eapply IHi; [|eassumption]. note_lengths. cbn [length] in *. lia.
    + exfalso. eapply IHo; [|eassumption]. lia.
  - cbn [scan_members].
    repeat (case_match; simplify_eq; try done).
    + exfalso. eapply IHm; [|eassumption]. note_lengths. cbn [length] in *. lia.
    + exfalso. eapply IHo; [|eassumption]. note_lengths. cbn [length] in *. lia.
Qed.

(** [loads] never runs out of fuel: a text is a document or a syntax
    error. *)
Lemma loads_total text : loads text ≠ OutOfFuel.
Proof.
  unfold loads.
  destruct (scan_once (enough text) (skip_ws text)) as [v r| |] eqn:H.
  - by destruct (skip_ws r).
  - done.
  - exfalso. eapply (proj1 (scan_fuel _)); [|exact H].
    pose proof (skip_ws_length text). unfold enough. lia.
Qed.

(** One character, escaped and read back. *)
Lemma scanstring_escape_char c tail :
  scanstring (escape_char c ++ tail) = prepend (N_of_ascii c) (scanstring tail).
Proof.
  destruct c as [[] [] [] [] [] [] [] []]; reflexivity.
Qed.

Lemma scanstring_escaped cs rest :
  scanstring (flat_map escape_char cs ++ "034"%char :: rest)
  = Some (map N_of_ascii cs, rest).
Proof.
  induction cs as [|c cs IH]; [done|].
  cbn [flat_map map]. rewrite <- app_assoc, scanstring_escape_char, IH. done.
Qed.

Lemma scan_once_string fuel s tail :
  scan_once (S fuel) (encode_basestring_ascii s ++ tail)
  = Parsed (JString (codes s)) tail.
Proof.
  unfold encode_basestring_ascii. cbn [app scan_once].
  change (N_of_ascii "034" =? 34)%N with true. cbv iota.
  rewrite <- app_assoc. cbn [app]. by rewrite scanstring_escaped.
Qed.

Lemma skip_ws_indent s tail :
  skip_ws (newline_indent ++ encode_basestring_ascii s ++ tail)
  = encode_basestring_ascii s ++ tail.
Proof. reflexivity. Qed.

Lemma scan_items_unfold fuel s :
  scan_items (S fuel) s =
  match scan_once fuel s with
  | Parsed v r =>
      match skip_ws r with
      | d :: r1 =>
          if (N_of_ascii d =? 93)%N then Parsed [v] r1
          else if (N_of_ascii d =? 44)%N then
            match scan_items fuel (skip_ws r1) with
            | Parsed vs r2 => Parsed (v :: vs) r2
            | SyntaxError => SyntaxError
            | OutOfFuel => OutOfFuel
            end
          else SyntaxError
      | [] => SyntaxError
      end
  | SyntaxError => SyntaxError
  | OutOfFuel => OutOfFuel
  end.
Proof. reflexivity. Qed.

Lemma scan_items_strings xs : ∀ x fuel rest,
  (length xs + 2 ≤ fuel)%nat →
  scan_items fuel
    (encode_basestring_ascii x ++ flat_map separated xs ++ closing ++ rest)
  = Parsed (map (λ s, JString (codes s)) (x :: xs)) rest.
Proof.
  induction xs as [|y ys IH]; intros x fuel rest Hf;
    (destruct fuel as [|[|fuel]]; [simpl in Hf; lia..|]);
    rewrite scan_items_unfold, scan_once_string.
  - reflexivity.
  - cbn [flat_map]. rewrite <- app_assoc.
    set (tail := flat_map separated ys ++ closing ++ rest).
    change (skip_ws (separated y ++ tail))
      with (","%char :: newline_indent ++ encode_basestring_ascii y ++ tail).
    cbv iota.
    change (N_of_ascii "," =? 93)%N with false.
    change (N_of_ascii "," =? 44)%N with true. cbv iota.
    rewrite skip_ws_indent. unfold tail.
    rewrite IH by (simpl in Hf; lia). done.
Qed.

Lemma dumps_cons x xs :
  dumps (x :: xs)
  = "["%char :: newline_indent
      ++ encode_basestring_ascii x ++ flat_map separated xs ++ closing ++ [].
Proof. unfold dumps. by rewrite app_nil_r. Qed.

Lemma length_separated xs : (length xs ≤ length (flat_map separated xs))%nat.
Proof.
  induction xs as [|y ys IH]; [done|].
  cbn [flat_map]. rewrite length_app. unfold separated at 1. simpl. lia.
Qed.

(** Reading back what [dumps] wrote gives the list of strings. *)
Lemma loads_dumps l :
  loads (dumps l) = Parsed (JArray (map (λ s, JString (codes s)) l)) [].
Proof.
  destruct l as [|x xs]; [reflexivity|].
  rewrite dumps_cons. unfold loads.
  set (text := "["%char :: _).
  assert (Hlen : (length xs + 4 ≤ enough text)%nat).
  { unfold enough, text. simpl. rewrite !length_app.
    pose proof (length_separated xs). lia. }
  destruct (enough text) as [|fuel] eqn:Hfuel; [lia|].
  unfold text.
  change (skip_ws ("["%char :: ?t)) with ("["%char :: t).
  cbn [scan_once].
  change (N_of_ascii "[" =? 34)%N with false.
  change (N_of_ascii "[" =? 123)%N with false.
  change (N_of_ascii "[" =? 91)%N with true. cbv iota.
  rewrite skip_ws_indent.
  unfold encode_basestring_ascii at 1. cbn [app].
  change (N_of_ascii "034" =? 93)%N with false. cbv iota.
  change ("034"%char :: (flat_map escape_char (list_ascii_of_string x) ++ ["034"%char]) ++ ?t)
    with (encode_basestring_ascii x ++ t).
  rewrite scan_items_strings by lia. reflexivity.
Qed.

End JsonFacts.

(** * The seen-set store *)

Lemma narrow_codes s : narrow (codes s) = Some s.
Proof.
  unfold narrow, codes.
  rewrite (proj2 (forallb_forall _ _)).
  - by rewrite map_map, (map_ext _ id), map_id, string_of_list_ascii_of_string
      by apply ascii_N_embedding.
  - intros n [c [<- _]]%in_map_iff. apply N.ltb_lt, N_ascii_bounded.
Qed.

Lemma as_text_strings l :
  mapM as_text (map (λ s, Json.JString (codes s)) l) = Some l.
Proof.
  apply (mapM_fmap_Some as_text (λ s, Json.JString (codes s))).
  intros s. apply narrow_codes.
Qed.

Lemma hashable_strings l :
  existsb unhashable (map (λ s, Json.JString (codes s)) l) = false.
Proof. induction l as [|s l IH]; [done|]. done. Qed.

Lemma py_set_strings l :
  py_set (Json.JArray (map (λ s, Json.JString (codes s)) l))
  = Ok (list_to_set l).
Proof. cbn [py_set]. by rewrite hashable_strings, as_text_strings. Qed.

Lemma json_load_dump l :
  json_load (json_dump l)
  = Ok (Json.JArray (map (λ s, Json.JString (codes s)) l)).
Proof.
  unfold json_load, json_dump.
  by rewrite list_ascii_of_string_of_list_ascii, loads_dumps.
Qed.

(** [json_load] gives a document or raises: the decoder has fuel
    enough for every text. *)
Lemma json_load_total text : json_load text ≠ Unmodelled.
Proof.
  unfold json_load.
  pose proof (loads_total (list_ascii_of_string text)).
  by destruct (Json.loads (list_ascii_of_string text)).
Qed.

(** A file that holds the dump of a list loads as the set of its
    members. *)
Lemma stored_dump fs path l :
  fs !! path = Some (File (json_dump l)) → stored fs path = Ok (list_to_set l).
Proof.
  intros H. unfold stored, open_r. rewrite H. cbn [mbind result_bind].
  rewrite json_load_dump. cbn [mbind result_bind]. by rewrite py_set_strings.
Qed.

Lemma save_seen_news_run path seen s :
  writable (disk s) path = true →
  save_seen_news path seen s
  = (Ok tt, set_disk (<[path := File (json_dump (elements seen))]> (disk s)) s).
Proof.
  unfold writable, save_seen_news, open_w.
  by destruct (disk s !! path) as [[]|].
Qed.

(** * Running the program *)

Lemma state_eta (s : state) :
  State (environ s) (disk s) (stdout s) (seen_urls s)
    (all_new_articles_by_ticker s) = s.
Proof. by destruct s. Qed.

Lemma process_article_run t a s :
  process_article t a s = (Ok tt, article_step t a s).
Proof.
  unfold process_article, article_step, has_title, get_data. run_m.
  destruct s as [env fs out seen d]; simpl.
  destruct (d !! t) as [l|] eqn:Hl; simpl;
    destruct (truthy (title (get_content a))) eqn:Ht; simpl;
    unfold set_seen_urls, set_articles; simpl.
  - by rewrite Hl.
  - by rewrite app_nil_r, insert_id.
  - by rewrite lookup_insert_eq, insert_insert_eq.
  - done.
Qed.

Lemma for_each_run {A} (body : A → M unit) (f : A → state → state) l s :
  (∀ x s, body x s = (Ok tt, f x s)) →
  for_each l body s = (Ok tt, foldl (λ s x, f x s) s l).
Proof.
  intros Hb. revert s. induction l as [|x l IH]; intros s; [done|].
  unfold for_each; fold (@for_each A). run_m. by rewrite Hb, IH.
Qed.

Lemma collect_ticker_run w t s :
  collect_ticker w t s = (Ok tt, ticker_step w t s).
Proof.
  unfold collect_ticker, ticker_step, fetch_news, ticker_log, returned.
  destruct (yf_news w t) as [e|[[|a l]|]].
  - by run_m.
  - run_m. destruct s; unfold set_stdout; simpl. by rewrite app_nil_r.
  - run_m. rewrite (for_each_run _ (article_step t)); [done|].
    apply process_article_run.
  - run_m. destruct s; unfold set_stdout; simpl. by rewrite app_nil_r.
Qed.

Lemma collect_articles_run w tickers s :
  collect_articles w tickers s = (Ok tt, aggregated w tickers s).
Proof.
  unfold collect_articles, aggregated. run_m.
  rewrite (for_each_run _ (ticker_step w)); [|apply collect_ticker_run].
  done.
Qed.

Lemma report_run s : report s = (Ok tt, reported s).
Proof.
  unfold report, reported, report_log. run_m.
  destruct (decide (all_new_articles_by_ticker s = ∅)); run_m; [done|].
  destruct s; unfold set_stdout; simpl. by rewrite <- app_assoc.
Qed.

Lemma get_stock_tickers_run w s :
  get_stock_tickers w s =
    (Ok (configured w s),
     set_environ (environ s ∪ dotenv w)
       (set_stdout
          (stdout s ++ match (environ s ∪ dotenv w) !! "STOCK_LIST" with
                       | Some (String _ _) => []
                       | _ => [WarnNoStockList]
                       end) s)).
Proof.
  unfold get_stock_tickers, load_dotenv, getenv, configured. run_m.
  destruct ((environ s ∪ dotenv w) !! "STOCK_LIST") as [[|c r]|]; run_m;
    try done.
  destruct s; unfold set_stdout, set_environ; simpl. by rewrite app_nil_r.
Qed.

Lemma load_seen_news_run path s :
  load_seen_news path s = (stored (disk s) path, s).
Proof. done. Qed.

Lemma union_twice (e d : gmap string string) : e ∪ d ∪ d = e ∪ d.
Proof. by rewrite <- (assoc_L (∪)), (idemp_L (∪) d). Qed.

Lemma main_run w s :
  main w s =
    match stored (disk s) SEEN_NEWS_FILE with
    | Ok seen =>
        (Ok tt,
         reported (aggregated w (configured w s)
                     (set_seen_urls seen (prelude w s))))
    | Raise e => (Raise e, prelude w s)
    | Unmodelled => (Unmodelled, prelude w s)
    end.
Proof.
  unfold main.
  unfold mbind at 1 2 3. unfold M_bind.
  unfold print at 1, load_dotenv at 1, modify. simpl.
  rewrite get_stock_tickers_run. simpl.
  rewrite union_twice.
  unfold mbind at 1 2. unfold M_bind, getenv, get.
  rewrite load_seen_news_run. simpl.
  assert (Hp : set_environ (environ s ∪ dotenv w)
     (set_stdout
        ((stdout s ++ [Fetching]) ++
         match (environ s ∪ dotenv w) !! "STOCK_LIST" with
         | Some (String _ _) => []
         | _ => [WarnNoStockList]
         end)
        (set_environ (environ s ∪ dotenv w)
           (set_stdout (stdout s ++ [Fetching]) s))) = prelude w s).
  { unfold prelude. destruct s as [env fs out seen d].
    unfold set_environ, set_stdout; simpl.
    f_equal. rewrite <- app_assoc.
    by destruct ((env ∪ dotenv w) !! "STOCK_LIST") as [[|??]|]. }
  rewrite Hp.
  destruct (stored (disk s) SEEN_NEWS_FILE) as [seen|e|]; try done.
  unfold mbind, M_bind, modify.
  rewrite collect_articles_run, report_run.
  unfold configured. simpl. by rewrite union_twice.
Qed.

(** * The loops, field by field *)

Section Loops.
Context (w : world).

Lemma articles_frame t news s :
  let s' := foldl (λ s a, article_step t a s) s news in
  environ s' = environ s ∧ disk s' = disk s ∧ stdout s' = stdout s.
Proof.
  revert s. induction news as [|a l IH]; intros s; simpl; [done|].
  destruct (IH (article_step t a s)) as (-> & -> & ->). by destruct s.
Qed.

Lemma articles_seen t news s :
  seen_urls (foldl (λ s a, article_step t a s) s news)
  = seen_urls s ∪ list_to_set (urls news).
Proof.
  revert s. induction news as [|a l IH]; intros s; simpl.
  - by rewrite (right_id_L ∅ (∪)).
  - rewrite IH. destruct s; simpl. by rewrite (assoc_L (∪)).
Qed.

Lemma titled_cons a l :
  titled (a :: l) = (if has_title a then [get_data a] else []) ++ titled l.
Proof. unfold titled. simpl. by destruct (has_title a). Qed.

Lemma articles_batch t a l s :
  all_new_articles_by_ticker (foldl (λ s a, article_step t a s) s (a :: l))
  = <[t := default [] (all_new_articles_by_ticker s !! t) ++ titled (a :: l)]>
      (all_new_articles_by_ticker s).
Proof.
  revert a s. induction l as [|b l IH]; intros a s.
  - simpl. rewrite titled_cons. unfold titled. simpl. rewrite app_nil_r.
    by destruct s.
  - change (foldl _ s (a :: b :: l))
      with (foldl (λ s a, article_step t a s) (article_step t a s) (b :: l)).
    rewrite IH, (titled_cons a). destruct s as [env fs out seen d]; simpl.
    rewrite lookup_insert_eq, insert_insert_eq. simpl. by rewrite <- app_assoc.
Qed.

Lemma ticker_frame t s :
  environ (ticker_step w t s) = environ s ∧ disk (ticker_step w t s) = disk s.
Proof.
  unfold ticker_step.
  destruct (articles_frame t (returned w t)
              (set_stdout (stdout s ++ ticker_log w t) s)) as (-> & -> & _).
  by destruct s.
Qed.

Lemma ticker_stdout t s :
  stdout (ticker_step w t s) = stdout s ++ ticker_log w t.
Proof.
  unfold ticker_step.
  destruct (articles_frame t (returned w t)
              (set_stdout (stdout s ++ ticker_log w t) s)) as (_ & _ & ->).
  by destruct s.
Qed.

Lemma ticker_seen t s :
  seen_urls (ticker_step w t s)
  = seen_urls s ∪ list_to_set (urls (returned w t)).
Proof. unfold ticker_step. rewrite articles_seen. by destruct s. Qed.

Lemma ticker_batch t s :
  all_new_articles_by_ticker (ticker_step w t s)
  = match returned w t with
    | [] => all_new_articles_by_ticker s
    | _ => <[t := default [] (all_new_articles_by_ticker s !! t)
                    ++ titled (returned w t)]> (all_new_articles_by_ticker s)
    end.
Proof.
  unfold ticker_step. destruct (returned w t) as [|a l].
  - by destruct s.
  - rewrite articles_batch. by destruct s.
Qed.

Lemma tickers_frame tickers s :
  let s' := foldl (λ s t, ticker_step w t s) s tickers in
  environ s' = environ s ∧ disk s' = disk s.
Proof.
  revert s. induction tickers as [|t l IH]; intros s; simpl; [done|].
  destruct (IH (ticker_step w t s)) as (-> & ->). apply ticker_frame.
Qed.

Lemma tickers_stdout tickers s :
  stdout (foldl (λ s t, ticker_step w t s) s tickers)
  = stdout s ++ flat_map (ticker_log w) tickers.
Proof.
  revert s. induction tickers as [|t l IH]; intros s; simpl.
  - by rewrite app_nil_r.
  - by rewrite IH, ticker_stdout, <- app_assoc.
Qed.

Lemma tickers_seen tickers s :
  seen_urls (foldl (λ s t, ticker_step w t s) s tickers)
  = seen_urls s ∪ list_to_set (all_urls w tickers).
Proof.
  revert s. induction tickers as [|t l IH]; intros s; simpl.
  - by rewrite (right_id_L ∅ (∪)).
  - rewrite IH, ticker_seen, list_to_set_app_L. set_solver.
Qed.

(** The entry of [t] after the tickers of a list have been processed. *)
Lemma tickers_batch tickers s t :
  all_new_articles_by_ticker (foldl (λ s t, ticker_step w t s) s tickers) !! t
  = if decide (t ∈ tickers ∧ returned w t ≠ [])
    then Some (default [] (all_new_articles_by_ticker s !! t)
               ++ concat (replicate (occurrences t tickers)
                            (titled (returned w t))))
    else all_new_articles_by_ticker s !! t.
Proof.
  revert s. induction tickers as [|t0 l IH]; intros s.
  - rewrite decide_False; [done|]. intros [H _]. by apply elem_of_nil in H.
  - change (foldl _ s (t0 :: l))
      with (foldl (λ s t, ticker_step w t s) (ticker_step w t0 s) l).
    rewrite IH, ticker_batch.
    destruct (decide (t0 = t)) as [->|Hne].
    + destruct (returned w t) as [|a r] eqn:Hr.
      * by rewrite !decide_False by (by intros [_ ?]).
      * rewrite lookup_insert_eq.
        rewrite (decide_True (P := t ∈ t :: l ∧ _)) by (split; [left|done]).
        cbn [occurrences default]. rewrite (decide_True (P := t = t)) by done.
        cbn [replicate concat Nat.add]. unfold id.
        destruct (decide (t ∈ l ∧ a :: r ≠ [])) as [H|H].
        -- by rewrite <- app_assoc.
        -- assert (occurrences t l = 0) as ->; [|by rewrite app_nil_r].
           assert (t ∉ l) as Hni by (intros ?; by apply H).
           clear -Hni. induction l as [|x l IHl]; [done|].
           apply not_elem_of_cons in Hni as [Hx Hl]. cbn [occurrences].
           rewrite decide_False by done. by apply IHl.
    + assert (all_new_articles_by_ticker s !! t =
              match returned w t0 with
              | [] => all_new_articles_by_ticker s
              | _ :: _ => <[t0:=default [] (all_new_articles_by_ticker s !! t0)
                               ++ titled (returned w t0)]>
                            (all_new_articles_by_ticker s)
              end !! t) as <-.
      { destruct (returned w t0); [done|]. by rewrite lookup_insert_ne. }
      assert ((t ∈ t0 :: l ∧ returned w t ≠ []) ↔ (t ∈ l ∧ returned w t ≠ []))
        as Hiff by set_solver.
      cbn [occurrences]. rewrite (decide_False (P := t0 = t)) by done.
      by rewrite (decide_ext _ _ _ _ Hiff).
Qed.

End Loops.

(** * The aggregation phase as a whole *)

Lemma aggregated_frame w tickers s :
  environ (aggregated w tickers s) = environ s ∧
  disk (aggregated w tickers s) = disk s.
Proof.
  unfold aggregated.
  destruct (tickers_frame w tickers
              (set_stdout (stdout s ++ [Collecting]) (set_articles ∅ s)))
    as (-> & ->).
  by destruct s.
Qed.

Lemma aggregated_stdout w tickers s :
  stdout (aggregated w tickers s)
  = stdout s ++ Collecting :: flat_map (ticker_log w) tickers.
Proof.
  unfold aggregated. rewrite tickers_stdout. destruct s; simpl.
  by rewrite <- app_assoc.
Qed.

Lemma aggregated_seen w tickers s :
  seen_urls (aggregated w tickers s)
  = seen_urls s ∪ list_to_set (all_urls w tickers).
Proof. unfold aggregated. rewrite tickers_seen. by destruct s. Qed.

Lemma aggregated_batch w tickers s t :
  all_new_articles_by_ticker (aggregated w tickers s) !! t
  = if decide (t ∈ tickers ∧ returned w t ≠ [])
    then Some (concat (replicate (occurrences t tickers)
                         (titled (returned w t))))
    else None.
Proof.
  unfold aggregated. rewrite tickers_batch. destruct s; simpl.
  by rewrite lookup_empty.
Qed.

Lemma occurrences_pos t tickers : t ∈ tickers → 0 < occurrences t tickers.
Proof.
  induction 1 as [t l|t x l _ IH]; cbn [occurrences].
  - rewrite decide_True by done. lia.
  - lia.
Qed.

Lemma elem_of_repeated {A} (x : A) n l :
  x ∈ concat (replicate n l) ↔ 0 < n ∧ x ∈ l.
Proof.
  induction n as [|n IH]; cbn [replicate concat].
  - rewrite elem_of_nil. split; [done|]. intros [? _]. lia.
  - rewrite elem_of_app, IH. split; [|tauto]. intros [?|[_ ?]]; split; auto; lia.
Qed.

Lemma elem_of_titled d l :
  d ∈ titled l ↔ ∃ a, a ∈ l ∧ has_title a = true ∧ d = get_data a.
Proof.
  unfold titled. rewrite list_elem_of_In, in_map_iff. split.
  - intros (a & <- & [Ha Ht]%filter_In). exists a.
    by rewrite list_elem_of_In.
  - intros (a & Ha & Ht & ->). exists a. split; [done|].
    apply filter_In. by rewrite <- list_elem_of_In.
Qed.

(** Only titled items are in the batch. *)
Lemma aggregated_titles w tickers s t l d :
  all_new_articles_by_ticker (aggregated w tickers s) !! t = Some l →
  d ∈ l → truthy (data_title d) = true.
Proof.
  rewrite aggregated_batch. case_decide; [|done]. intros [= <-].
  intros [_ (a & _ & Ht & ->)%elem_of_titled]%elem_of_repeated. exact Ht.
Qed.

Lemma aggregated_empty w tickers s :
  Forall (λ t, returned w t = []) tickers →
  all_new_articles_by_ticker (aggregated w tickers s) = ∅.
Proof.
  intros Hall. apply map_eq. intros t.
  rewrite aggregated_batch, lookup_empty, decide_False; [done|].
  intros [Ht Hne]. rewrite Forall_forall in Hall. by apply Hne, Hall.
Qed.

(** * [main] as a whole *)

Lemma main_disk w s : disk (main w s).2 = disk s.
Proof.
  rewrite main_run.
  assert (disk (prelude w s) = disk s) as Hp by by destruct s.
  destruct (stored (disk s) SEEN_NEWS_FILE) as [seen| |]; simpl; try done.
  unfold reported.
  destruct (aggregated_frame w (configured w s)
              (set_seen_urls seen (prelude w s))) as [_ Hd].
  destruct (aggregated w _ _); simpl in *. by rewrite Hd.
Qed.

(** The example of the specification: AAPL with a titled and an
    untitled record, MSFT with none. *)
Example run_of_the_specification :
  let r := main sample_world (sample_start "AAPL,MSFT") in
  r.1 = Ok tt
  ∧ all_new_articles_by_ticker r.2
    = {["AAPL" := [ArticleData (Some "Apple rises") (Some "Shares up")]]}
  ∧ seen_urls r.2 = {["u1"; "u2"]}
  ∧ stdout r.2
    = [Fetching; Collecting; Found 2 "AAPL"; FoundNew 1;
       PrintBatch
         {["AAPL" := [ArticleData (Some "Apple rises") (Some "Shares up")]]}].
Proof. by vm_compute. Qed.

(** * The claims *)

(** ** C1: the keys of the batch *)

(** C1, as stated, fails: a ticker whose records all lack a title is in
    the batch, with an empty sequence. *)
Lemma untitled_ticker_is_keyed :
  all_new_articles_by_ticker
    (collect_articles sample_world ["ODD"] (start ∅ ∅)).2 !! "ODD" = Some []
  ∧ Forall (λ a, has_title a = false) (returned sample_world "ODD").
Proof. split; [by vm_compute|by repeat constructor]. Qed.

(** C1, amended: after the aggregation phase a ticker is a key of the
    batch if and only if it is in the list and the provider returned at
    least one record for it; its sequence holds the titled records of the
    response, in order, once for each time the ticker is in the list. So
    a ticker whose records all lack a title is a key with the empty
    sequence. The same holds at the end of [main], for the configured
    tickers, once the seen set has been loaded. *)
Theorem batch_keys w :
  (∀ tickers s, ∃ s',
     collect_articles w tickers s = (Ok tt, s') ∧
     ∀ t, (t ∈ dom (all_new_articles_by_ticker s')
           ↔ t ∈ tickers ∧ returned w t ≠ []) ∧
          (∀ l, all_new_articles_by_ticker s' !! t = Some l →
                l = concat (replicate (occurrences t tickers)
                             (titled (returned w t)))))
  ∧ (∀ s seen, stored (disk s) SEEN_NEWS_FILE = Ok seen → ∃ s',
       main w s = (Ok tt, s') ∧
       ∀ t, (t ∈ dom (all_new_articles_by_ticker s')
             ↔ t ∈ configured w s ∧ returned w t ≠ []) ∧
            (∀ l, all_new_articles_by_ticker s' !! t = Some l →
                  l = concat (replicate (occurrences t (configured w s))
                               (titled (returned w t))))).
Proof.
  assert (∀ tickers s t,
            (t ∈ dom (all_new_articles_by_ticker (aggregated w tickers s))
             ↔ t ∈ tickers ∧ returned w t ≠ []) ∧
            (∀ l, all_new_articles_by_ticker (aggregated w tickers s) !! t
                  = Some l →
                  l = concat (replicate (occurrences t tickers)
                               (titled (returned w t))))) as Hagg.
  { intros tickers s t. rewrite elem_of_dom, aggregated_batch.
    case_decide as Hd; split.
    - by split; [|eexists].
    - by intros l [= <-].
    - split; [by intros [? ?]|done].
    - done. }
  split.
  - intros tickers s. exists (aggregated w tickers s).
    split; [apply collect_articles_run|]. apply Hagg.
  - intros s seen Hload. rewrite main_run, Hload. eexists. split; [done|].
    intros t. unfold reported. set (s1 := aggregated _ _ _).
    replace (all_new_articles_by_ticker (set_stdout _ s1))
      with (all_new_articles_by_ticker s1) by by destruct s1.
    apply Hagg.
Qed.

Lemma batch_keys_witness :
  ∃ s', collect_articles sample_world ["AAPL"; "ODD"; "MSFT"] (start ∅ ∅)
        = (Ok tt, s') ∧
    all_new_articles_by_ticker s'
    = {[ "AAPL" := [ArticleData (Some "Apple rises") (Some "Shares up")];
         "ODD" := [] ]}.
Proof.
  destruct (proj1 (batch_keys sample_world)
              ["AAPL"; "ODD"; "MSFT"] (start ∅ ∅)) as (s' & Hrun & _).
  exists s'. split; [exact Hrun|].
  rewrite collect_articles_run in Hrun. injection Hrun as <-. by vm_compute.
Defined.

(** ** C2: persisting the seen set *)

(** C2, as stated, fails: a run that ends with a batch and a seen set of
    two addresses leaves no file behind; the storage still loads as the
    empty set. *)
Lemma batch_found_nothing_saved :
  let r := main sample_world (sample_start "AAPL, MSFT") in
  r.1 = Ok tt
  ∧ all_new_articles_by_ticker r.2 !! "AAPL"
    = Some [ArticleData (Some "Apple rises") (Some "Shares up")]
  ∧ seen_urls r.2 = {["u1"; "u2"]}
  ∧ disk r.2 !! SEEN_NEWS_FILE = None
  ∧ stored (disk r.2) SEEN_NEWS_FILE = Ok ∅.
Proof. by vm_compute. Qed.

(** C2, amended: no run of [main] writes to storage. Whether the batch
    is empty or not, the files after the run are the files before it; the
    updated seen set stays in memory. *)
Theorem main_leaves_storage w s : disk (main w s).2 = disk s.
Proof. apply main_disk. Qed.

Lemma main_leaves_storage_witness :
  disk (main sample_world (sample_start "AAPL, MSFT")).2 = ∅.
Proof. exact (main_leaves_storage sample_world (sample_start "AAPL, MSFT")). Defined.

(** ** C3: the empty batch *)

(** C3, as stated, fails: no record of ODD has a title, yet the batch is
    not empty and the run reports articles for one ticker. *)
Lemma untitled_only_is_reported :
  let r := main sample_world (sample_start "ODD") in
  r.1 = Ok tt
  ∧ Forall (λ t, Forall (λ a, has_title a = false) (returned sample_world t))
      (configured sample_world (sample_start "ODD"))
  ∧ all_new_articles_by_ticker r.2 = {["ODD" := []]}
  ∧ stdout r.2
    = [Fetching; Collecting; Found 1 "ODD"; FoundNew 1;
       PrintBatch {["ODD" := []]}].
Proof.
  split; [by vm_compute|]. split; [by repeat constructor|].
  split; by vm_compute.
Qed.

(** C3, amended: when the seen set loads and no configured ticker yields
    any record (each fetch raises, or returns nothing), the batch is
    empty, the run reports that there are no new articles, and the
    storage is left as it was. *)
Theorem nothing_fetched w s seen :
  stored (disk s) SEEN_NEWS_FILE = Ok seen →
  Forall (λ t, returned w t = []) (configured w s) →
  ∃ s', main w s = (Ok tt, s') ∧
    all_new_articles_by_ticker s' = ∅ ∧
    NoNewArticles ∈ stdout s' ∧
    disk s' = disk s.
Proof.
  intros Hload Hnone. pose proof (main_disk w s) as Hdisk.
  rewrite main_run, Hload in *. eexists. split; [done|].
  set (s1 := aggregated _ _ _) in *.
  assert (all_new_articles_by_ticker s1 = ∅) as He
    by by apply aggregated_empty.
  split; [by destruct s1|]. split; [|exact Hdisk].
  unfold reported, report_log. rewrite He.
  destruct s1; simpl. rewrite decide_True by done.
  apply elem_of_app. right. by left.
Qed.

Lemma nothing_fetched_witness :
  ∃ s', main sample_world (sample_start "MSFT, BAD") = (Ok tt, s') ∧
    all_new_articles_by_ticker s' = ∅ ∧
    NoNewArticles ∈ stdout s' ∧
    disk s' = disk (sample_start "MSFT, BAD").
Proof.
  apply (nothing_fetched sample_world (sample_start "MSFT, BAD") ∅).
  - by vm_compute.
  - by vm_compute; repeat constructor.
Defined.

(** ** C4: the title gate *)

Lemma elem_of_all_urls w tickers t a :
  t ∈ tickers → a ∈ returned w t → get_url a ∈ all_urls w tickers.
Proof.
  intros Ht Ha. unfold all_urls. rewrite list_elem_of_In. apply in_flat_map.
  exists t. rewrite <- !list_elem_of_In. split; [done|].
  unfold urls. rewrite list_elem_of_In. apply in_map.
  by rewrite <- list_elem_of_In.
Qed.



(** ** C5: save and load *)



(** ** C6: loading fails softly *)



(** ** C7: a failed save *)



(** ** C8: a failing ticker *)

Lemma ticker_log_raises w t e :
  yf_news w t = Raises e → ticker_log w t = [CouldNotFetch t e].
Proof. unfold ticker_log. by intros ->. Qed.

Lemma returned_raises w t e : yf_news w t = Raises e → returned w t = [].
Proof. unfold returned. by intros ->. Qed.

Lemma elem_of_logs w tickers t ev :
  t ∈ tickers → ev ∈ ticker_log w t → ev ∈ flat_map (ticker_log w) tickers.
Proof.
  intros Ht Hev. rewrite list_elem_of_In. apply in_flat_map. exists t.
  by rewrite <- !list_elem_of_In.
Qed.

Lemma occurrences_app t l1 l2 :
  occurrences t (l1 ++ l2) = occurrences t l1 + occurrences t l2.
Proof. induction l1 as [|x l1 IH]; [done|]. cbn [app occurrences]. lia. Qed.

(** A ticker for which the provider has nothing leaves the batch and the
    seen set as they would be without it. *)
Lemma aggregated_skip w before t after s :
  returned w t = [] →
  all_new_articles_by_ticker (aggregated w (before ++ t :: after) s)
  = all_new_articles_by_ticker (aggregated w (before ++ after) s)
  ∧ seen_urls (aggregated w (before ++ t :: after) s)
    = seen_urls (aggregated w (before ++ after) s).
Proof.
  intros Hnil. split.
  - apply map_eq. intros x. rewrite !aggregated_batch.
    destruct (decide (x = t)) as [->|Hne].
    + by rewrite !decide_False by (intros [_ ?]; done).
    + assert (occurrences x (before ++ t :: after)
              = occurrences x (before ++ after)) as ->.
      { rewrite !occurrences_app. cbn [occurrences].
        by rewrite (decide_False (P := t = x)). }
      apply decide_ext. rewrite !elem_of_app, elem_of_cons. naive_solver.
  - rewrite !aggregated_seen. f_equal. unfold all_urls.
    by rewrite !flat_map_app; cbn [flat_map]; rewrite Hnil.
Qed.

(** C8: the aggregation phase ends normally for every list of tickers.
    For a ticker whose fetch raises, the failure is printed and the batch
    has no entry; the batch and the seen set are what they would be
    without that ticker, so the tickers before and after it keep their
    entries; a ticker with a titled record has an entry with that
    record. [main] as a whole ends normally once the seen set has been
    loaded. *)
Theorem failure_is_isolated w :
  (∀ tickers s, ∃ s',
     collect_articles w tickers s = (Ok tt, s') ∧
     (∀ t e, t ∈ tickers → yf_news w t = Raises e →
        CouldNotFetch t e ∈ stdout s' ∧
        all_new_articles_by_ticker s' !! t = None) ∧
     (∀ t a, t ∈ tickers → a ∈ returned w t → has_title a = true →
        ∃ l, all_new_articles_by_ticker s' !! t = Some l ∧ get_data a ∈ l))
  ∧ (∀ before t after e s, yf_news w t = Raises e →
       all_new_articles_by_ticker
         (collect_articles w (before ++ t :: after) s).2
       = all_new_articles_by_ticker (collect_articles w (before ++ after) s).2
       ∧ seen_urls (collect_articles w (before ++ t :: after) s).2
         = seen_urls (collect_articles w (before ++ after) s).2)
  ∧ (∀ s seen, stored (disk s) SEEN_NEWS_FILE = Ok seen →
       (main w s).1 = Ok tt).
Proof.
  split; [|split].
  - intros tickers s. exists (aggregated w tickers s).
    split; [apply collect_articles_run|]. split.
    + intros t e Ht He. split.
      * rewrite aggregated_stdout, elem_of_app, elem_of_cons. right. right.
        apply (elem_of_logs w tickers t); [done|].
        rewrite (ticker_log_raises w t e He). by left.
      * rewrite aggregated_batch, decide_False; [done|].
        intros [_ Hne]. by apply Hne, (returned_raises w t e).
    + intros t a Ht Ha Htitle. rewrite aggregated_batch, decide_True.
      * eexists. split; [done|]. apply elem_of_repeated.
        split; [by apply occurrences_pos|]. apply elem_of_titled. by exists a.
      * split; [done|]. intros Hnil. rewrite Hnil in Ha.
        by apply elem_of_nil in Ha.
  - intros before t after e s He. rewrite !collect_articles_run.
    apply aggregated_skip, (returned_raises w t e He).
  - intros s seen Hload. by rewrite main_run, Hload.
Qed.

Lemma failure_is_isolated_witness :
  ∃ s', collect_articles sample_world ["AAPL"; "BAD"; "ODD"] (start ∅ ∅)
        = (Ok tt, s')
    ∧ CouldNotFetch "BAD" (ProviderError "no data") ∈ stdout s'
    ∧ all_new_articles_by_ticker s' !! "BAD" = None
    ∧ ∃ l, all_new_articles_by_ticker s' !! "AAPL" = Some l
           ∧ get_data titled_item ∈ l.
Proof.
  destruct (proj1 (failure_is_isolated sample_world)
              ["AAPL"; "BAD"; "ODD"] (start ∅ ∅)) as (s' & Hrun & Hbad & Hok).
  exists s'. split; [exact Hrun|].
  destruct (Hbad "BAD" (ProviderError "no data")) as [Hlog Hnone].
  - right. by left.
  - reflexivity.
  - split; [exact Hlog|]. split; [exact Hnone|].
    apply (Hok "AAPL" titled_item).
    + by left.
    + vm_compute. by left.
    + reflexivity.
Defined.

(** ** C9: the ticker list *)

(** C9, as stated, fails: with [STOCK_LIST] set to a symbol and a
    trailing comma, the list has an empty string in it. *)
Lemma trailing_comma_gives_empty_ticker :
  (get_stock_tickers sample_world (sample_start "AAPL,")).1
  = Ok ["AAPL"; ""]
  ∧ ¬ Forall (λ t, t ≠ "") ["AAPL"; ""].
Proof.
  split; [reflexivity|]. intros H. inversion_clear H as [|?? _ H'].
  by inversion_clear H'.
Qed.

(** C9, amended: when [STOCK_LIST] is absent or empty, the provider
    prints the warning and returns the empty list, without raising, and
    [main] goes on with no ticker: once the seen set has been loaded it
    ends normally with an empty batch. When [STOCK_LIST] is set to a text
    that is not empty, nothing is printed and the list holds one symbol
    for each field between the commas of the text: the field without the
    whitespace around it. A symbol is the empty string exactly when its
    field is blank. *)
Theorem tickers_from_configuration w s :
  ∃ tickers s',
    get_stock_tickers w s = (Ok tickers, s') ∧
    match (environ s ∪ dotenv w) !! "STOCK_LIST" with
    | Some (String c r) =>
        let cfg := String c r in
        stdout s' = stdout s ∧
        tickers = map PyStr.strip (PyStr.split "," cfg) ∧
        PyStr.join "," (PyStr.split "," cfg) = cfg ∧
        length tickers = S (PyStr.count "," cfg) ∧
        Forall PyStr.trimmed tickers ∧
        Forall2 (λ field t, t = "" ↔ PyStr.blank field = true)
          (PyStr.split "," cfg) tickers
    | _ =>
        tickers = [] ∧
        stdout s' = stdout s ++ [WarnNoStockList] ∧
        ∀ seen, stored (disk s) SEEN_NEWS_FILE = Ok seen →
          ∃ s'', main w s = (Ok tt, s'') ∧
                 all_new_articles_by_ticker s'' = ∅
    end.
Proof.
  assert (∀ seen, configured w s = [] →
            stored (disk s) SEEN_NEWS_FILE = Ok seen →
            ∃ s'', main w s = (Ok tt, s'') ∧
                   all_new_articles_by_ticker s'' = ∅) as Hmain.
  { intros seen Hcfg Hload. rewrite main_run, Hload, Hcfg.
    eexists. split; [done|]. unfold reported. set (s1 := aggregated _ _ _).
    assert (all_new_articles_by_ticker s1 = ∅) as He
      by by apply aggregated_empty.
    by destruct s1. }
  eexists _, _. split; [apply get_stock_tickers_run|].
  unfold configured in *.
  destruct ((environ s ∪ dotenv w) !! "STOCK_LIST") as [[|c r]|] eqn:Hcfg.
  - split; [done|]. split; [by destruct s|]. intros seen. by apply Hmain.
  - cbv zeta. set (cfg := String c r).
    split; [destruct s; simpl; by rewrite app_nil_r|].
    split; [done|]. split; [apply join_split|].
    split; [by rewrite length_map, split_length|]. split.
    + apply Forall_forall. intros t (f & <- & _)%list_elem_of_In%in_map_iff.
      apply strip_trimmed.
    + generalize (PyStr.split "," cfg). intros fields.
      induction fields as [|f fields IH]; constructor; [|exact IH].
      apply strip_empty.
  - split; [done|]. split; [by destruct s|]. intros seen. by apply Hmain.
Qed.

Lemma tickers_from_configuration_witness :
  ∃ tickers s',
    get_stock_tickers sample_world (sample_start " AAPL , MSFT")
    = (Ok tickers, s') ∧ tickers = ["AAPL"; "MSFT"].
Proof.
  destruct (tickers_from_configuration sample_world
              (sample_start " AAPL , MSFT")) as (tickers & s' & Hrun & H).
  exists tickers, s'. split; [exact Hrun|].
  apply (proj1 (proj2 H)).
Defined.

(** ** C10: the seen set grows *)

(** C10: no step takes an address out of the seen set. One turn of the
    inner loop keeps every member, so does the aggregation phase, and
    after [main] the set in memory holds every address that was loaded
    from storage. *)
Theorem seen_set_only_grows w :
  (∀ t a s, seen_urls s ⊆ seen_urls (process_article t a s).2)
  ∧ (∀ tickers s, seen_urls s ⊆ seen_urls (collect_articles w tickers s).2)
  ∧ (∀ s seen, stored (disk s) SEEN_NEWS_FILE = Ok seen →
       ∃ s', main w s = (Ok tt, s') ∧ seen ⊆ seen_urls s').
Proof.
  split; [|split].
  - intros t a s. rewrite process_article_run. destruct s; simpl.
    apply union_subseteq_l.
  - intros tickers s. rewrite collect_articles_run. simpl.
    rewrite aggregated_seen. apply union_subseteq_l.
  - intros s seen Hload. rewrite main_run, Hload. eexists. split; [done|].
    unfold reported. set (s1 := aggregated _ _ _).
    assert (seen ⊆ seen_urls s1) as Hsub.
    { unfold s1. rewrite aggregated_seen. destruct s; simpl.
      apply union_subseteq_l. }
    by destruct s1.
Qed.

Lemma seen_set_only_grows_witness :
  ∃ s', main sample_world
          (State {["STOCK_LIST" := "AAPL"]}
             {[SEEN_NEWS_FILE := File (json_dump ["old"])]} [] ∅ ∅)
        = (Ok tt, s')
    ∧ {["old"]} ⊆ seen_urls s'.
Proof.
  apply (proj2 (proj2 (seen_set_only_grows sample_world))).
  by vm_compute.
Defined.

(** * Further properties

    Properties of the four functions beyond the claims: what [main]
    prints and leaves in memory, how the store overwrites and fails, and
    what the ticker list is made of. *)

Lemma reported_fields s :
  all_new_articles_by_ticker (reported s) = all_new_articles_by_ticker s ∧
  seen_urls (reported s) = seen_urls s ∧
  stdout (reported s)
  = stdout s ++ report_log (all_new_articles_by_ticker s).
Proof. by destruct s. Qed.

(** The state at the end of [main], field by field. *)
Lemma main_fields w s seen :
  stored (disk s) SEEN_NEWS_FILE = Ok seen →
  main w s = (Ok tt, (main w s).2) ∧
  all_new_articles_by_ticker (main w s).2
  = all_new_articles_by_ticker (aggregated w (configured w s) s) ∧
  seen_urls (main w s).2 = seen ∪ list_to_set (all_urls w (configured w s)) ∧
  stdout (main w s).2
  = stdout (prelude w s)
      ++ Collecting :: flat_map (ticker_log w) (configured w s)
      ++ report_log (all_new_articles_by_ticker (main w s).2).
Proof.
  intros Hload. rewrite main_run, Hload. cbn [fst snd].
  set (s0 := set_seen_urls seen (prelude w s)).
  set (s1 := aggregated w (configured w s) s0).
  destruct (reported_fields s1) as (Hb & Hs & Ho).
  split; [done|]. split; [|split].
  - rewrite Hb. unfold s1. apply map_eq. intros t.
    by rewrite !aggregated_batch.
  - rewrite Hs. unfold s1. rewrite aggregated_seen. by destruct s.
  - rewrite Hb, Ho. unfold s1. rewrite aggregated_stdout.
    replace (stdout s0) with (stdout (prelude w s)) by by destruct s.
    by rewrite <- app_assoc.
Qed.

Lemma configured_nil w s :
  configured w s = []
  ↔ match (environ s ∪ dotenv w) !! "STOCK_LIST" with
    | Some (String _ _) => False
    | _ => True
    end.
Proof.
  unfold configured.
  destruct ((environ s ∪ dotenv w) !! "STOCK_LIST") as [[|c r]|]; try done.
  split; [|done]. intros H%(f_equal length).
  rewrite length_map, split_length in H. done.
Qed.

Lemma stdout_prelude w s :
  stdout (prelude w s)
  = stdout s ++ Fetching :: match configured w s with
                            | [] => [WarnNoStockList]
                            | _ => []
                            end.
Proof.
  unfold prelude, configured.
  destruct ((environ s ∪ dotenv w) !! "STOCK_LIST") as [[|c r]|];
    [by destruct s| |by destruct s].
  pose proof (split_not_nil "," (String c r)) as Hne.
  destruct (PyStr.split "," (String c r)); [done|]. by destruct s.
Qed.

Lemma aggregated_dom w tickers s :
  dom (all_new_articles_by_ticker (aggregated w tickers s))
  = list_to_set (filter (λ t, returned w t ≠ []) tickers).
Proof.
  apply set_eq. intros t.
  rewrite elem_of_dom, aggregated_batch, elem_of_list_to_set,
    list_elem_of_filter.
  case_decide as H.
  - split; [intros _; tauto|intros _; by eexists].
  - split; [by intros [? ?]|]. intros [? ?]. exfalso. by apply H.
Qed.

Lemma aggregated_empty_iff w tickers s :
  all_new_articles_by_ticker (aggregated w tickers s) = ∅
  ↔ Forall (λ t, returned w t = []) tickers.
Proof.
  split; [|apply aggregated_empty].
  intros He. apply Forall_forall. intros t Ht.
  destruct (returned w t) as [|a l] eqn:Hr; [done|].
  assert (t ∈ dom (all_new_articles_by_ticker (aggregated w tickers s))) as Hd.
  { rewrite aggregated_dom, elem_of_list_to_set, list_elem_of_filter.
    by rewrite Hr. }
  rewrite He, dom_empty_L in Hd. by apply elem_of_empty in Hd.
Qed.

(** X1: the batch does not depend on the seen set. Two runs of [main]
    with the same environment give the same batch whatever their storage
    holds: a record whose address is already in the loaded set is
    reported again. *)
Theorem batch_ignores_storage w s1 s2 seen1 seen2 :
  environ s1 = environ s2 →
  stored (disk s1) SEEN_NEWS_FILE = Ok seen1 →
  stored (disk s2) SEEN_NEWS_FILE = Ok seen2 →
  all_new_articles_by_ticker (main w s1).2
  = all_new_articles_by_ticker (main w s2).2.
Proof.
  intros Henv H1 H2.
  destruct (main_fields w s1 seen1 H1) as (_ & -> & _).
  destruct (main_fields w s2 seen2 H2) as (_ & -> & _).
  assert (configured w s1 = configured w s2) as ->
    by (unfold configured; by rewrite Henv).
  apply map_eq. intros t. by rewrite !aggregated_batch.
Qed.

Lemma batch_ignores_storage_witness :
  all_new_articles_by_ticker (main sample_world stale_start).2
  = all_new_articles_by_ticker (main sample_world (sample_start "AAPL")).2.
Proof.
  apply (batch_ignores_storage sample_world stale_start (sample_start "AAPL")
           {["u1"]} ∅); by vm_compute.
Defined.

(** X2: once the seen set has been loaded, the set in memory at the end
    of [main] holds exactly the loaded addresses and the address of every
    record returned for a configured ticker. *)
Theorem seen_set_after_main w s seen :
  stored (disk s) SEEN_NEWS_FILE = Ok seen →
  ∃ s', main w s = (Ok tt, s') ∧
    ∀ u, u ∈ seen_urls s'
         ↔ u ∈ seen ∨ ∃ t a, t ∈ configured w s ∧ a ∈ returned w t
                               ∧ u = get_url a.
Proof.
  intros Hload. destruct (main_fields w s seen Hload) as (Hrun & _ & Hs & _).
  eexists. split; [exact Hrun|]. intros u.
  rewrite Hs, elem_of_union, elem_of_list_to_set. unfold all_urls, urls.
  rewrite list_elem_of_In, in_flat_map. split.
  - intros [?|(t & Ht & (a & <- & Ha)%in_map_iff)]; [by left|right].
    exists t, a. by rewrite !list_elem_of_In.
  - intros [?|(t & a & Ht & Ha & ->)]; [by left|right].
    exists t. rewrite <- list_elem_of_In. split; [done|].
    apply in_map. by rewrite <- list_elem_of_In.
Qed.

Lemma seen_set_after_main_witness :
  ∃ s', main sample_world stale_start = (Ok tt, s') ∧
    ∀ u, u ∈ seen_urls s'
         ↔ u ∈ ({["u1"]} : gset string)
           ∨ ∃ t a, t ∈ configured sample_world stale_start
                    ∧ a ∈ returned sample_world t ∧ u = get_url a.
Proof. apply (seen_set_after_main sample_world stale_start). by vm_compute. Defined.

(** X4: what [main] prints, once the seen set has been loaded, after
    what was printed before: the opening line; the warning exactly when
    no ticker is configured; the collecting line; for each configured
    ticker, in order, the failure of its fetch, or the number of its
    records (titled or not), or nothing when it has no record; and at the
    end either the line that there are no new articles, or the number of
    keys of the batch and the batch. *)
Theorem output_of_main w s seen :
  stored (disk s) SEEN_NEWS_FILE = Ok seen →
  ∃ s', main w s = (Ok tt, s') ∧
    stdout s'
    = stdout s
        ++ Fetching :: match configured w s with
                       | [] => [WarnNoStockList]
                       | _ => []
                       end
        ++ Collecting :: flat_map (ticker_log w) (configured w s)
        ++ (if decide (Forall (λ t, returned w t = []) (configured w s))
            then [NoNewArticles]
            else [FoundNew (size (all_new_articles_by_ticker s'));
                  PrintBatch (all_new_articles_by_ticker s')]).
Proof.
  intros Hload. destruct (main_fields w s seen Hload) as (Hrun & Hb & _ & Ho).
  eexists. split; [exact Hrun|].
  rewrite Ho, stdout_prelude, <- !app_assoc. cbn [app]. do 4 f_equal.
  unfold report_log. rewrite Hb.
  by rewrite (decide_ext _ _ _ _ (aggregated_empty_iff w (configured w s) s)).
Qed.

Lemma output_of_main_witness :
  ∃ s', main sample_world (sample_start "BAD,AAPL,MSFT") = (Ok tt, s') ∧
    stdout s'
    = [Fetching; Collecting; CouldNotFetch "BAD" (ProviderError "no data");
       Found 2 "AAPL"; FoundNew (size (all_new_articles_by_ticker s'));
       PrintBatch (all_new_articles_by_ticker s')].
Proof.
  destruct (output_of_main sample_world (sample_start "BAD,AAPL,MSFT") ∅)
    as (s' & Hrun & Hout); [by vm_compute|].
  exists s'. split; [exact Hrun|]. rewrite Hout.
  rewrite decide_False; [reflexivity|].
  intros H. apply Forall_cons in H as [_ H]. apply Forall_cons in H as [H _].
  discriminate H.
Defined.

(** X5: the batch at the end of [main] is empty, and the last line
    printed is the one that there are no new articles, exactly when no
    configured ticker has any record. *)
Theorem no_new_articles_iff w s seen :
  stored (disk s) SEEN_NEWS_FILE = Ok seen →
  ∃ s', main w s = (Ok tt, s') ∧
    (all_new_articles_by_ticker s' = ∅
     ↔ Forall (λ t, returned w t = []) (configured w s)) ∧
    (last (stdout s') = Some NoNewArticles
     ↔ Forall (λ t, returned w t = []) (configured w s)).
Proof.
  intros Hload. destruct (main_fields w s seen Hload) as (Hrun & Hb & _ & Ho).
  eexists. split; [exact Hrun|].
  rewrite Ho, Hb. split; [apply aggregated_empty_iff|].
  rewrite <- (aggregated_empty_iff w (configured w s) s).
  rewrite last_app_cons, last_cons, last_app.
  unfold report_log. case_decide as He; simpl; [done|].
  split; [done|]. intros Hempty. by destruct He.
Qed.

Lemma no_new_articles_iff_witness :
  ∃ s', main sample_world (sample_start "ODD") = (Ok tt, s') ∧
    (all_new_articles_by_ticker s' = ∅
     ↔ Forall (λ t, returned sample_world t = [])
         (configured sample_world (sample_start "ODD"))) ∧
    (last (stdout s') = Some NoNewArticles
     ↔ Forall (λ t, returned sample_world t = [])
         (configured sample_world (sample_start "ODD"))).
Proof. apply (no_new_articles_iff sample_world (sample_start "ODD") ∅). by vm_compute. Defined.

Lemma list_to_set_remove_dups_L (l : list string) :
  (list_to_set (remove_dups l) : gset string) = list_to_set l.
Proof.
  apply set_eq. intros x. by rewrite !elem_of_list_to_set, elem_of_remove_dups.
Qed.

(** X6: the number of keys of the batch, which [main] prints, is the
    number of distinct configured tickers with at least one record; a
    ticker configured twice counts once. *)
Theorem reported_count w s seen :
  stored (disk s) SEEN_NEWS_FILE = Ok seen →
  ∃ s', main w s = (Ok tt, s') ∧
    size (all_new_articles_by_ticker s')
    = length (remove_dups
                (filter (λ t, returned w t ≠ []) (configured w s))).
Proof.
  intros Hload. destruct (main_fields w s seen Hload) as (Hrun & Hb & _).
  eexists. split; [exact Hrun|].
  rewrite Hb, <- size_dom, aggregated_dom, <- list_to_set_remove_dups_L.
  apply size_list_to_set, NoDup_remove_dups.
Qed.

Lemma reported_count_witness :
  ∃ s', main sample_world (sample_start "AAPL,ODD,AAPL,MSFT") = (Ok tt, s') ∧
    size (all_new_articles_by_ticker s') = 2.
Proof.
  apply (reported_count sample_world (sample_start "AAPL,ODD,AAPL,MSFT") ∅).
  by vm_compute.
Defined.

(** X3: records without a ['link'] all get the one placeholder
    address. When no record of the configured tickers has a link and at
    least one record is returned, the run adds just
    ["data not available"] to the loaded set. *)
Theorem linkless_records_share_one_address w s seen :
  stored (disk s) SEEN_NEWS_FILE = Ok seen →
  Forall (λ t, Forall (λ a, link (get_content a) = None) (returned w t))
    (configured w s) →
  Exists (λ t, returned w t ≠ []) (configured w s) →
  ∃ s', main w s = (Ok tt, s') ∧
        seen_urls s' = seen ∪ {["data not available"]}.
Proof.
  intros Hload Hall Hex.
  destruct (main_fields w s seen Hload) as (Hrun & _ & Hs & _).
  eexists. split; [exact Hrun|]. rewrite Hs. f_equal.
  apply set_eq. intros u.
  rewrite elem_of_list_to_set, elem_of_singleton. unfold all_urls, urls.
  rewrite list_elem_of_In, in_flat_map.
  rewrite Forall_forall in Hall. split.
  - intros (t & Ht%list_elem_of_In & (a & <- & Ha%list_elem_of_In)%in_map_iff).
    specialize (Hall t Ht). rewrite Forall_forall in Hall.
    unfold get_url. by rewrite (Hall a Ha).
  - intros ->. apply Exists_exists in Hex as (t & Ht & Hne).
    exists t. rewrite <- list_elem_of_In. split; [done|].
    destruct (returned w t) as [|a l] eqn:Hr; [done|].
    specialize (Hall t Ht). rewrite Hr in Hall.
    apply Forall_inv in Hall. left. unfold get_url. by rewrite Hall.
Qed.

Lemma linkless_records_share_one_address_witness :
  ∃ s', main bare_world (sample_start "X, Y") = (Ok tt, s') ∧
        seen_urls s' = ∅ ∪ {["data not available"]}.
Proof.
  apply (linkless_records_share_one_address bare_world (sample_start "X, Y") ∅).
  - by vm_compute.
  - vm_compute. by repeat constructor.
  - vm_compute. by left.
Defined.



(** X8: [save_seen_news] touches one file. Whether it succeeds or
    raises, every other path holds what it held, and the environment, the
    output and the objects of [main] are unchanged. *)
Theorem save_touches_one_file path (ids : gset string) s :
  let s' := (save_seen_news path ids s).2 in
  (∀ p, p ≠ path → disk s' !! p = disk s !! p) ∧
  environ s' = environ s ∧ stdout s' = stdout s ∧
  seen_urls s' = seen_urls s ∧
  all_new_articles_by_ticker s' = all_new_articles_by_ticker s.
Proof.
  unfold save_seen_news, open_w.
  destruct (disk s !! path) as [[]|]; destruct s; simpl;
    repeat split; try done; intros p Hp; by rewrite lookup_insert_ne.
Qed.

(** X9: an error of [load_seen_news] ends [main]. The run stops with
    that error after the opening line (and the warning, if no ticker is
    configured): nothing is fetched, the collecting line is not printed,
    and storage is left as it was. *)
Theorem load_error_ends_main w s e :
  (load_seen_news SEEN_NEWS_FILE s).1 = Raise e →
  ∃ s', main w s = (Raise e, s') ∧
    stdout s' = stdout s ++ Fetching :: match configured w s with
                                        | [] => [WarnNoStockList]
                                        | _ => []
                                        end ∧
    disk s' = disk s ∧
    seen_urls s' = seen_urls s ∧
    all_new_articles_by_ticker s' = all_new_articles_by_ticker s.
Proof.
  rewrite load_seen_news_run. cbn [fst]. intros Hload.
  rewrite main_run, Hload. eexists. split; [done|].
  split; [apply stdout_prelude|]. by destruct s.
Qed.

Lemma load_error_ends_main_witness :
  ∃ s', main sample_world null_start = (Raise TypeError, s') ∧
    stdout s' = [Fetching] ∧
    disk s' = disk null_start ∧
    seen_urls s' = ∅ ∧
    all_new_articles_by_ticker s' = ∅.
Proof.
  apply (load_error_ends_main sample_world null_start TypeError).
  by vm_compute.
Defined.



(** X14: one turn of the inner loop never raises: the list that line
    87 looks up is there, since lines 77 and 78 create it. After the turn
    the ticker has its old sequence with the record's data at the end if
    the record has a title; the entries of the other tickers, the output
    and the files are unchanged, and the address is in the seen set. *)
Theorem inner_turn_is_safe t a s :
  ∃ s', process_article t a s = (Ok tt, s') ∧
    all_new_articles_by_ticker s' !! t
    = Some (default [] (all_new_articles_by_ticker s !! t)
            ++ if has_title a then [get_data a] else []) ∧
    (∀ t', t' ≠ t → all_new_articles_by_ticker s' !! t'
                    = all_new_articles_by_ticker s !! t') ∧
    seen_urls s' = seen_urls s ∪ {[get_url a]} ∧
    stdout s' = stdout s ∧ disk s' = disk s ∧ environ s' = environ s.
Proof.
  eexists. split; [apply process_article_run|].
  destruct s; unfold article_step; simpl.
  split; [apply lookup_insert_eq|]. split; [|done].
  intros t' Hne. by apply lookup_insert_ne.
Qed.

(** X16: the order of the tickers matters for the output only: two
    lists that are permutations of each other give the same batch and the
    same seen set. *)
Lemma occurrences_perm t l k : l ≡ₚ k → occurrences t l = occurrences t k.
Proof.
  induction 1 as [|x l k _ IH|x y l|l k m _ IH1 _ IH2]; cbn [occurrences];
    [done|by rewrite IH|lia|congruence].
Qed.

Theorem ticker_order_is_immaterial w tickers tickers' s :
  tickers ≡ₚ tickers' →
  all_new_articles_by_ticker (collect_articles w tickers s).2
  = all_new_articles_by_ticker (collect_articles w tickers' s).2
  ∧ seen_urls (collect_articles w tickers s).2
    = seen_urls (collect_articles w tickers' s).2.
Proof.
  intros Hp. rewrite !collect_articles_run. cbn [snd]. split.
  - apply map_eq. intros t. rewrite !aggregated_batch.
    rewrite (occurrences_perm t _ _ Hp).
    apply decide_ext. by rewrite Hp.
  - rewrite !aggregated_seen. f_equal. apply list_to_set_perm_L.
    unfold all_urls. clear s.
    induction Hp as [|x l k _ IH|x y l|l k m _ IH1 _ IH2]; cbn [flat_map].
    + done.
    + by rewrite IH.
    + rewrite !(assoc (++)). f_equiv. apply Permutation_app_comm.
    + by etrans.
Qed.

Lemma ticker_order_is_immaterial_witness :
  all_new_articles_by_ticker
    (collect_articles sample_world ["AAPL"; "ODD"] (start ∅ ∅)).2
  = all_new_articles_by_ticker
      (collect_articles sample_world ["ODD"; "AAPL"] (start ∅ ∅)).2
  ∧ seen_urls (collect_articles sample_world ["AAPL"; "ODD"] (start ∅ ∅)).2
    = seen_urls (collect_articles sample_world ["ODD"; "AAPL"] (start ∅ ∅)).2.
Proof.
  apply (ticker_order_is_immaterial sample_world ["AAPL"; "ODD"]
           ["ODD"; "AAPL"] (start ∅ ∅)).
  apply perm_swap.
Defined.

Section MoreStrings.
Import PyStr.

Lemma count_lstrip c s : (count c (lstrip s) ≤ count c s)%nat.
Proof.
  induction s as [|d r IH]; [done|]. cbn [lstrip].
  destruct (isspace d); cbn [count]; lia.
Qed.

Lemma count_rstrip c s : (count c (rstrip s) ≤ count c s)%nat.
Proof.
  induction s as [|d r IH]; [done|]. cbn [rstrip].
  destruct (rstrip r) as [|e r']; [destruct (isspace d)|]; cbn [count] in *; lia.
Qed.

Lemma count_strip c s : count c s = 0 → count c (strip s) = 0.
Proof.
  intros H. unfold strip.
  pose proof (count_rstrip c (lstrip s)). pose proof (count_lstrip c s). lia.
Qed.

Lemma rstrip_solid s : solid s = true → rstrip s = s.
Proof.
  unfold solid. induction s as [|d r IH]; [done|]. cbn [forallb rstrip].
  intros [Hd Hr]%andb_true_iff. rewrite (IH Hr).
  destruct r; [|done]. by apply negb_true_iff in Hd as ->.
Qed.

Lemma strip_solid s : solid s = true → strip s = s.
Proof.
  intros H. unfold strip.
  assert (lstrip s = s) as ->; [|by apply rstrip_solid].
  destruct s as [|d r]; [done|]. cbn [lstrip].
  unfold solid in H. cbn [forallb] in H.
  apply andb_true_iff in H as [Hd _]. by apply negb_true_iff in Hd as ->.
Qed.

Lemma split_solid sep s : solid s = true → Forall (λ f, solid f = true) (split sep s).
Proof.
  unfold solid. induction s as [|d r IH]; [by repeat constructor|].
  cbn [forallb split]. intros [Hd Hr]%andb_true_iff. specialize (IH Hr).
  destruct (Ascii.eqb d sep); [by constructor|].
  destruct (split sep r) as [|f fs]; [by repeat constructor; cbn; rewrite Hd|].
  inversion_clear IH. constructor; [|done]. cbn [forallb]. by rewrite Hd.
Qed.

End MoreStrings.

(** X11: no symbol returned by [get_stock_tickers] has a comma in
    it. *)
Theorem no_ticker_has_a_comma w s :
  ∃ tickers s', get_stock_tickers w s = (Ok tickers, s') ∧
    Forall (λ t, PyStr.count "," t = 0) tickers.
Proof.
  eexists _, _. split; [apply get_stock_tickers_run|].
  unfold configured.
  destruct ((environ s ∪ dotenv w) !! "STOCK_LIST") as [[|c r]|]; try done.
  apply Forall_forall. intros t (f & <- & Hf%list_elem_of_In)%list_elem_of_In%in_map_iff.
  apply count_strip.
  pose proof (split_no_sep "," (String c r)) as Hall.
  rewrite Forall_forall in Hall. by apply Hall.
Qed.

(** X12: when [STOCK_LIST] is set to a text without whitespace, the
    list is the text cut at its commas, and joining the list with commas
    gives the text back. *)
Theorem solid_configuration_round_trip w s cfg :
  (environ s ∪ dotenv w) !! "STOCK_LIST" = Some cfg →
  cfg ≠ "" → solid cfg = true →
  ∃ tickers s', get_stock_tickers w s = (Ok tickers, s') ∧
    tickers = PyStr.split "," cfg ∧ PyStr.join "," tickers = cfg.
Proof.
  intros Hcfg Hne Hsolid. eexists _, _.
  split; [apply get_stock_tickers_run|].
  unfold configured. rewrite Hcfg. destruct cfg as [|c r]; [done|].
  assert (map PyStr.strip (PyStr.split "," (String c r))
          = PyStr.split "," (String c r)) as ->.
  { pose proof (split_solid "," (String c r) Hsolid) as Hall.
    induction Hall as [|f fs Hf _ IH]; [done|].
    cbn [map]. by rewrite IH, strip_solid. }
  split; [done|]. apply join_split.
Qed.

Lemma solid_configuration_round_trip_witness :
  ∃ tickers s',
    get_stock_tickers sample_world (sample_start "AAPL,MSFT")
    = (Ok tickers, s') ∧
    tickers = PyStr.split "," "AAPL,MSFT" ∧
    PyStr.join "," tickers = "AAPL,MSFT".
Proof.
  apply (solid_configuration_round_trip sample_world
           (sample_start "AAPL,MSFT") "AAPL,MSFT"); [reflexivity|done|reflexivity].
Defined.

(** X13: a [STOCK_LIST] in the process environment wins over the one
    in the [.env] file, even when it is empty. After the call the
    environment still has it, the variables that were not set have the
    values of the [.env] file, and the files are unchanged. *)
Theorem environment_wins_over_dotenv w s v :
  environ s !! "STOCK_LIST" = Some v →
  ∃ s', get_stock_tickers w s
        = (Ok (match v with
               | EmptyString => []
               | _ => map PyStr.strip (PyStr.split "," v)
               end), s')
    ∧ environ s' !! "STOCK_LIST" = Some v
    ∧ (∀ k, environ s !! k = None → environ s' !! k = dotenv w !! k)
    ∧ disk s' = disk s.
Proof.
  intros Hv.
  assert ((environ s ∪ dotenv w) !! "STOCK_LIST" = Some v) as Hu
    by by apply lookup_union_Some_l.
  rewrite get_stock_tickers_run.
  assert (configured w s = match v with
                           | EmptyString => []
                           | _ => map PyStr.strip (PyStr.split "," v)
                           end) as ->
    by (unfold configured; rewrite Hu; by destruct v).
  eexists. split; [done|]. destruct s; simpl in *. split; [done|].
  split; [|done]. intros k Hk. by rewrite lookup_union_r.
Qed.

Lemma environment_wins_over_dotenv_witness :
  ∃ s', get_stock_tickers (World {["STOCK_LIST" := "AAPL"]} sample_news)
          (sample_start "MSFT")
        = (Ok ["MSFT"], s')
    ∧ environ s' !! "STOCK_LIST" = Some "MSFT"
    ∧ (∀ k, environ (sample_start "MSFT") !! k = None →
            environ s' !! k
            = dotenv (World {["STOCK_LIST" := "AAPL"]} sample_news) !! k)
    ∧ disk s' = disk (sample_start "MSFT").
Proof.
  apply (environment_wins_over_dotenv
           (World {["STOCK_LIST" := "AAPL"]} sample_news)
           (sample_start "MSFT") "MSFT").
  reflexivity.
Defined.

Section Format.
Import Json.

Lemma count_text_app c l k :
  PyStr.count c (string_of_list_ascii (l ++ k))
  = PyStr.count c (string_of_list_ascii l)
    + PyStr.count c (string_of_list_ascii k).
Proof. induction l as [|d l IH]; [done|]. cbn. rewrite IH. lia. Qed.

Lemma plain_text_app l k :
  PyStr.forallb plain (string_of_list_ascii (l ++ k))
  = PyStr.forallb plain (string_of_list_ascii l)
    && PyStr.forallb plain (string_of_list_ascii k).
Proof. induction l as [|d l IH]; [done|]. cbn. by rewrite IH, andb_assoc. Qed.

Lemma escape_char_format c :
  PyStr.forallb plain (string_of_list_ascii (escape_char c)) = true
  ∧ PyStr.count LF (string_of_list_ascii (escape_char c)) = 0.
Proof. destruct c as [[] [] [] [] [] [] [] []]; by vm_compute. Qed.

Lemma encode_format s :
  PyStr.forallb plain (string_of_list_ascii (encode_basestring_ascii s)) = true
  ∧ PyStr.count LF (string_of_list_ascii (encode_basestring_ascii s)) = 0.
Proof.
  unfold encode_basestring_ascii.
  change ("034"%char :: ?l ++ ?k) with (["034"%char] ++ l ++ k).
  rewrite !plain_text_app, !count_text_app.
  assert (PyStr.forallb plain
            (string_of_list_ascii
               (flat_map escape_char (list_ascii_of_string s))) = true
          ∧ PyStr.count LF
              (string_of_list_ascii
                 (flat_map escape_char (list_ascii_of_string s))) = 0)
    as [-> ->]; [|done].
  induction (list_ascii_of_string s) as [|c l [IH1 IH2]]; [done|].
  cbn [flat_map]. rewrite plain_text_app, count_text_app, IH1, IH2.
  by destruct (escape_char_format c) as [-> ->].
Qed.

Lemma separated_format xs :
  PyStr.forallb plain (string_of_list_ascii (flat_map separated xs)) = true
  ∧ PyStr.count LF (string_of_list_ascii (flat_map separated xs)) = length xs.
Proof.
  induction xs as [|y ys [IH1 IH2]]; [done|].
  cbn [flat_map]. unfold separated at 1 3.
  change (","%char :: newline_indent ++ ?k)
    with ((","%char :: newline_indent) ++ k).
  rewrite !plain_text_app, !count_text_app, IH1, IH2.
  destruct (encode_format y) as [-> ->]. done.
Qed.

Lemma dumps_format x xs :
  PyStr.forallb plain (json_dump (x :: xs)) = true
  ∧ PyStr.count LF (json_dump (x :: xs)) = S (S (length xs)).
Proof.
  unfold json_dump, dumps.
  change ("["%char :: newline_indent ++ ?k)
    with (("["%char :: newline_indent) ++ k).
  rewrite !plain_text_app, !count_text_app.
  destruct (encode_format x) as [-> ->].
  destruct (separated_format xs) as [-> ->].
  split; [done|]. cbn. lia.
Qed.

End Format.

(** X15: the text that [save_seen_news] writes is made of printable
    ASCII characters and line feeds, whatever the addresses hold, and it
    has one line feed per address and one more; the empty set is written
    on a single line. *)
Theorem saved_text_format path (ids : gset string) s :
  writable (disk s) path = true →
  ∃ text s',
    save_seen_news path ids s = (Ok tt, s') ∧
    disk s' !! path = Some (File text) ∧
    PyStr.forallb plain text = true ∧
    PyStr.count LF text = (if decide (ids = ∅) then 0 else S (size ids)).
Proof.
  intros Hw. eexists _, _. split; [by apply save_seen_news_run|].
  split; [destruct s; simpl; apply lookup_insert_eq|].
  destruct (elements ids) as [|x xs] eqn:He.
  - apply elements_empty_inv in He. apply leibniz_equiv in He.
    by rewrite decide_True.
  - assert (size ids = S (length xs)) as Hsize.
    { unfold size, set_size. cbn. by rewrite He. }
    rewrite decide_False.
    + rewrite Hsize. apply dumps_format.
    + intros ->. by rewrite elements_empty in He.
Qed.

Lemma saved_text_format_witness :
  ∃ text s',
    save_seen_news SEEN_NEWS_FILE {["u1"; "u2"]} (start ∅ ∅) = (Ok tt, s') ∧
    disk s' !! SEEN_NEWS_FILE = Some (File text) ∧
    PyStr.forallb plain text = true ∧
    PyStr.count LF text = 3.
Proof.
  destruct (saved_text_format SEEN_NEWS_FILE {["u1"; "u2"]} (start ∅ ∅))
    as (text & s' & Hsave & Hfile & Hplain & Hlines); [reflexivity|].
  exists text, s'. by repeat split.
Defined.
